(** * pdf_to_csv_converter: the statement parser and the transaction classifier

    A shallow embedding of [src/pdf_to_csv_converter.py]: the label/value
    splitter, the line-oriented statement parser, the keyword classifier and
    the composition of output rows, with the properties of the specification
    proved (or refuted) over them.

    Python strings are sequences of Unicode code points; they are modelled
    as lists of code points, so that [\s], [str.strip] and [str.splitlines]
    see a non-breaking space as one character, as the interpreter does. *)

From Stdlib Require Import List ZArith NArith Bool Lia String Ascii DecimalPos.
Import ListNotations.

Set Implicit Arguments.

(* ================================================================== *)
(** * Python strings *)
(* ================================================================== *)

Module Str.

(** A character is a code point, a [str] a list of them. *)
Definition char := N.
Definition str := list char.

(** ** Literals

    Source literals are written as UTF-8 text and decoded to code points:
    [need] counts the continuation bytes still expected, [acc] holds the
    bits read so far. *)
Fixpoint utf8 (need : nat) (acc : N) (bs : list N) : str :=
  match bs with
  | [] => []
  | b :: bs' =>
      match need with
      | S k =>
          let acc' := (acc * 64 + b mod 64)%N in
          match k with
          | O => acc' :: utf8 0 0%N bs'
          | S _ => utf8 k acc' bs'
          end
      | O =>
          if (b <? 128)%N then b :: utf8 0 0%N bs'
          else if (b <? 224)%N then utf8 1 (b mod 32)%N bs'
          else if (b <? 240)%N then utf8 2 (b mod 16)%N bs'
          else utf8 3 (b mod 8)%N bs'
      end
  end.

Definition u (s : string) : str :=
  utf8 0 0%N (map N_of_ascii (list_ascii_of_string s)).
Arguments u s%_string.

Definition eqc (a b : char) : bool := N.eqb a b.

(** [a == b] on strings. *)
Fixpoint eqs (a b : str) : bool :=
  match a, b with
  | [], [] => true
  | x :: a', y :: b' => eqc x y && eqs a' b'
  | _, _ => false
  end.

(** ** Character classes of the interpreter *)

(** [str.isspace] on one character, which is also what [\s] matches in a
    [str] pattern and what [str.strip()] removes: the characters of
    bidirectional type WS, B or S and of category Zs. *)
Definition isspace (c : char) : bool :=
  ((9 <=? c) && (c <=? 13) || (28 <=? c) && (c <=? 32)
   || (c =? 133) || (c =? 160) || (c =? 5760)
   || (8192 <=? c) && (c <=? 8202)
   || (c =? 8232) || (c =? 8233) || (c =? 8239) || (c =? 8287)
   || (c =? 12288))%N.

(** The line boundaries of [str.splitlines]: LF, VT, FF, CR, FS, GS, RS,
    NEL, LINE SEPARATOR and PARAGRAPH SEPARATOR. *)
Definition islinebreak (c : char) : bool :=
  ((10 <=? c) && (c <=? 13) || (28 <=? c) && (c <=? 30)
   || (c =? 133) || (c =? 8232) || (c =? 8233))%N.

Definition LF : char := 10%N.
Definition CR : char := 13%N.
Definition SP : char := 32%N.

(** ** [str] methods *)

Fixpoint dropwhile (p : char -> bool) (s : str) : str :=
  match s with
  | [] => []
  | c :: s' => if p c then dropwhile p s' else s
  end.

Definition lstrip_by (p : char -> bool) (s : str) : str := dropwhile p s.
Definition rstrip_by (p : char -> bool) (s : str) : str :=
  rev (dropwhile p (rev s)).

(** [s.strip()] *)
Definition strip (s : str) : str := rstrip_by isspace (lstrip_by isspace s).

(** [s.rstrip(chars)]: every trailing character that occurs in [chars]
    is removed. *)
Definition rstrip_chars (chars : str) (s : str) : str :=
  rstrip_by (fun c => existsb (eqc c) chars) s.

(** [s.startswith(p)] *)
Fixpoint startswith (p s : str) : bool :=
  match p, s with
  | [], _ => true
  | _ :: _, [] => false
  | x :: p', y :: s' => eqc x y && startswith p' s'
  end.

(** [p in s] *)
Fixpoint contains (p s : str) : bool :=
  startswith p s ||
  match s with
  | [] => false
  | _ :: s' => contains p s'
  end.

(** [s.replace(old, new)] for a non-empty [old] (every call of the
    program passes a non-empty literal): the occurrences are replaced from
    the left and do not overlap; [skip] counts the characters of a found
    occurrence that are still to be passed over. *)
Fixpoint replace_from (old new : str) (skip : nat) (s : str) : str :=
  match s with
  | [] => []
  | c :: s' =>
      match skip with
      | S k => replace_from old new k s'
      | O =>
          if startswith old s
          then new ++ replace_from old new (List.length old - 1) s'
          else c :: replace_from old new 0 s'
      end
  end.

Definition replace (old new s : str) : str := replace_from old new 0 s.

(** [sep.join(parts)] *)
Fixpoint join (sep : str) (parts : list str) : str :=
  match parts with
  | [] => []
  | [p] => p
  | p :: ps => p ++ sep ++ join sep ps
  end.

(** Puts a character in front of the first piece. *)
Definition cons_head (c : char) (l : list str) : list str :=
  match l with
  | [] => [[c]]
  | x :: xs => (c :: x) :: xs
  end.

(** [s.splitlines()]: the lines without their boundaries; CR LF is one
    boundary ([after_cr] says that the previous character was a CR, whose
    LF is then passed over); a boundary at the end opens no further
    line. *)
Fixpoint splitlines_from (after_cr : bool) (s : str) : list str :=
  match s with
  | [] => []
  | c :: s' =>
      if after_cr && eqc c LF then splitlines_from false s'
      else if islinebreak c then [] :: splitlines_from (eqc c CR) s'
      else cons_head c (splitlines_from false s')
  end.

Definition splitlines (s : str) : list str := splitlines_from false s.

End Str.

Import Str.

(* ================================================================== *)
(** * The Unicode tables of the interpreter *)
(* ================================================================== *)

(** Three operations of the program read the Unicode character database of
    the interpreter, which is not part of the repository: [str.lower], the
    word characters of [\b] in a [str] pattern (alphanumeric or [_]) and the
    decimal digits that [float] accepts.  The program is embedded over any
    such tables. *)
Class Unicode := {
  lower : str -> str;            (* s.lower() *)
  isalnum : char -> bool;        (* c.isalnum() *)
  todecimal : char -> option Z   (* the value of a decimal digit (category Nd) *)
}.

(** The tables for the code points below U+0180 (Basic Latin, Latin-1
    Supplement and Latin Extended-A, which hold the Hungarian alphabet);
    the code points from U+0180 on are left unchanged by [lower_char] and
    are outside [latin_isalnum]. *)
Module Latin.

Definition between (a b c : N) : bool := ((a <=? c) && (c <=? b))%N.

Definition lower_char (c : char) : str :=
  if between 65 90 c then [c + 32]%N
  else if between 192 222 c && negb (c =? 215)%N then [c + 32]%N
  else if (c =? 304)%N then [105; 775]%N
  else if (c =? 376)%N then [255]%N
  else if (between 256 303 c || between 306 311 c || between 330 375 c)
          && N.even c then [c + 1]%N
  else if (between 313 328 c || between 377 382 c) && N.odd c then [c + 1]%N
  else [c].

Definition latin_lower (s : str) : str := flat_map lower_char s.

Definition latin_isalnum (c : char) : bool :=
  between 48 57 c || between 65 90 c || between 97 122 c
  || (c =? 170)%N || (c =? 178)%N || (c =? 179)%N || (c =? 181)%N
  || (c =? 185)%N || (c =? 186)%N || between 188 190 c
  || between 192 214 c || between 216 246 c || between 248 383 c.

Definition latin_todecimal (c : char) : option Z :=
  if between 48 57 c then Some (Z.of_N c - 48)%Z else None.

Definition tables : Unicode :=
  {| lower := latin_lower;
     isalnum := latin_isalnum;
     todecimal := latin_todecimal |}.

End Latin.

(* ================================================================== *)
(** * Regular expressions *)
(* ================================================================== *)

Module Re.
Section Matcher.

Context {U : Unicode}.

(** The constructs that the patterns of the classifier use. *)
Inductive regex :=
| Lit (s : str)                  (* a literal text *)
| StarCls (p : char -> bool)     (* [...]* over a character class *)
| WordB                          (* \b *)
| Seq (r1 r2 : regex)
| Alt (r1 r2 : regex).

(** [\w] of a [str] pattern. *)
Definition isword (c : char) : bool := isalnum c || eqc c 95%N.

Definition isword_opt (c : option char) : bool :=
  match c with Some c => isword c | None => false end.

(** [\b]: exactly one of the characters before and after the position
    is a word character (the ends of the text count as non-word). *)
Definition at_boundary (prev : option char) (s : str) : bool :=
  xorb (isword_opt prev) (isword_opt (hd_error s)).

(** After a literal [l] has been read: the character before the position
    and the rest of the text. *)
Fixpoint after_lit (l : str) (prev : option char) (s : str)
  : option (option char * str) :=
  match l, s with
  | [], _ => Some (prev, s)
  | x :: l', y :: s' => if eqc x y then after_lit l' (Some y) s' else None
  | _ :: _, [] => None
  end.

(** [p*] followed by the continuation [k], every number of repetitions
    being tried. *)
Fixpoint star (p : char -> bool) (k : option char -> str -> bool)
         (prev : option char) (s : str) : bool :=
  k prev s ||
  match s with
  | c :: s' => p c && star p k (Some c) s'
  | [] => false
  end.

(** [matches r k prev s]: [r] matches at the start of [s] (which follows
    the character [prev]) and the continuation [k] accepts what is left;
    alternatives and repetitions are backtracked into. *)
Fixpoint matches (r : regex) (k : option char -> str -> bool)
         (prev : option char) (s : str) : bool :=
  match r with
  | Lit l =>
      match after_lit l prev s with
      | Some (prev', s') => k prev' s'
      | None => false
      end
  | StarCls p => star p k prev s
  | WordB => at_boundary prev s && k prev s
  | Seq r1 r2 => matches r1 (matches r2 k) prev s
  | Alt r1 r2 => matches r1 k prev s || matches r2 k prev s
  end.

Definition accept (_ : option char) (_ : str) : bool := true.

Fixpoint search_from (r : regex) (prev : option char) (s : str) : bool :=
  matches r accept prev s ||
  match s with
  | c :: s' => search_from r (Some c) s'
  | [] => false
  end.

(** [re.search(r, s)] is not [None]. *)
Definition search (r : regex) (s : str) : bool := search_from r None s.

(** [re.split(r"\s{2,}", s)]: the text is cut at every run of two or
    more whitespace characters, the whole run being removed; [in_gap]
    says that such a run is being passed over. *)
Fixpoint split_gaps_from (in_gap : bool) (s : str) : list str :=
  match s with
  | [] => [[]]
  | c :: s' =>
      if in_gap then
        if isspace c then split_gaps_from true s'
        else cons_head c (split_gaps_from false s')
      else if isspace c && match s' with d :: _ => isspace d | [] => false end
      then [] :: split_gaps_from true s'
      else cons_head c (split_gaps_from false s')
  end.

Definition split_gaps (s : str) : list str := split_gaps_from false s.

(** [re.sub] of the class [[\s\u00A0]+] by the empty text: every
    character of the class is removed. *)
Definition sub_spaces (s : str) : str :=
  filter (fun c => negb (isspace c || eqc c 160%N)) s.

End Matcher.
End Re.

Import Re.

(* ================================================================== *)
(** * Exceptions *)
(* ================================================================== *)

Inductive exn := ValueError.

(** The outcome of a computation that may raise. *)
Inductive result (A : Type) :=
| Ok (a : A)
| Raise (e : exn).
Arguments Ok {A} a.
Arguments Raise {A} e.

Definition bind {A B} (m : result A) (f : A -> result B) : result B :=
  match m with
  | Ok a => f a
  | Raise e => Raise e
  end.

Notation "x <- m ;; k" := (bind m (fun x => k))
  (at level 61, m at next level, right associativity).

(** [try: body except ValueError: handler] *)
Definition try_except_ValueError {A} (body handler : result A) : result A :=
  match body with
  | Ok a => Ok a
  | Raise ValueError => handler
  end.

(** The statements of a [for] loop over [l], threading the state [st]. *)
Fixpoint for_each {A S} (body : S -> A -> result S) (st : S) (l : list A)
  : result S :=
  match l with
  | [] => Ok st
  | x :: l' => st' <- body st x ;; for_each body st' l'
  end.

(* ================================================================== *)
(** * Floating-point numbers *)
(* ================================================================== *)

Module Float.

Local Open Scope Z_scope.

(** A [float] is an IEEE 754 binary64 number: [Finite neg m e] is
    [(-1)^neg * m * 2^e] with [0 <= m] (a zero keeps its sign). *)
Inductive float :=
| Finite (neg : bool) (m e : Z)
| Inf (neg : bool)
| NaN.

(** The integer nearest to [p / q], the even one of two equally near
    ([0 <= p], [0 < q]). *)
Definition round_half_even (p q : Z) : Z :=
  let d := p / q in
  match 2 * (p mod q) ?= q with
  | Lt => d
  | Gt => d + 1
  | Eq => if Z.even d then d else d + 1
  end.

(** The integer [e] with [2^e <= p / q < 2^(e+1)] ([0 < p], [0 < q]). *)
Definition floor_log2 (p q : Z) : Z :=
  let e0 := Z.log2 p - Z.log2 q in
  let below := if 0 <=? e0 then q * 2 ^ e0 <=? p else q <=? p * 2 ^ (- e0) in
  if below then e0 else e0 - 1.

(** The binary64 number nearest to [p / q] ([0 <= p], [0 < q]): 53
    significant bits, the unit in the last place not below [2^-1074], ties
    to even, and infinity from [2^1024] on. *)
Definition of_ratio (neg : bool) (p q : Z) : float :=
  if p =? 0 then Finite neg 0 0
  else
    let t := Z.max (floor_log2 p q - 52) (-1074) in
    let m := if 0 <=? t then round_half_even p (q * 2 ^ t)
             else round_half_even (p * 2 ^ (- t)) q in
    if (971 <? t) || (t =? 971) && (m =? 2 ^ 53) then Inf neg
    else Finite neg m t.

(** [x > 0] and [x < 0]; both are false of a zero and of a NaN. *)
Definition gt0 (x : float) : bool :=
  match x with
  | Finite neg m _ => negb neg && (0 <? m)
  | Inf neg => negb neg
  | NaN => false
  end.

Definition lt0 (x : float) : bool :=
  match x with
  | Finite neg m _ => neg && (0 <? m)
  | Inf neg => neg
  | NaN => false
  end.

(** ** Decimal digits *)

Fixpoint uint_chars (d : Decimal.uint) : str :=
  match d with
  | Decimal.Nil => []
  | Decimal.D0 d => 48%N :: uint_chars d
  | Decimal.D1 d => 49%N :: uint_chars d
  | Decimal.D2 d => 50%N :: uint_chars d
  | Decimal.D3 d => 51%N :: uint_chars d
  | Decimal.D4 d => 52%N :: uint_chars d
  | Decimal.D5 d => 53%N :: uint_chars d
  | Decimal.D6 d => 54%N :: uint_chars d
  | Decimal.D7 d => 55%N :: uint_chars d
  | Decimal.D8 d => 56%N :: uint_chars d
  | Decimal.D9 d => 57%N :: uint_chars d
  end.

(** The decimal numeral of [n >= 0], without leading zeros. *)
Definition decimal (n : Z) : str := uint_chars (N.to_uint (Z.to_N n)).

(** ** [f"{x:.2f}"] *)

(** [x * 100] rounded to the nearest integer, ties to even, for the
    magnitude [m * 2^e]. *)
Definition hundredths (m e : Z) : Z :=
  if 0 <=? e then m * 2 ^ e * 100
  else round_half_even (m * 100) (2 ^ (- e)).

Definition sign_chars (neg : bool) : str := if neg then [45%N] else [].

(** Fixed notation with two digits after the point; the sign is kept,
    also when the digits are all zero; a NaN is printed without sign. *)
Definition format_2f (x : float) : str :=
  match x with
  | NaN => u "nan"
  | Inf neg => sign_chars neg ++ u "inf"
  | Finite neg m e =>
      let n := hundredths m e in
      sign_chars neg ++ decimal (n / 100) ++ [46%N]
        ++ decimal (n mod 100 / 10) ++ decimal (n mod 10)
  end.

(** ** [float(s)] *)

Section Parse.

Context {U : Unicode}.

Definition isdigit (c : char) : bool := ((48 <=? c) && (c <=? 57))%N.

(** The text is first brought to ASCII: a whitespace character
    becomes a space and a decimal digit of any script its ASCII digit;
    no other character outside ASCII can be part of a number. *)
Definition to_ascii (c : char) : option char :=
  if (c <? 128)%N then Some c
  else if isspace c then Some SP
  else match todecimal c with
       | Some d => Some (48 + Z.to_N d)%N
       | None => None
       end.

Fixpoint transform (s : str) : option str :=
  match s with
  | [] => Some []
  | c :: s' =>
      match to_ascii c, transform s' with
      | Some a, Some t => Some (a :: t)
      | _, _ => None
      end
  end.

(** An underscore is allowed only between two digits; [prev] is the
    character before. *)
Fixpoint drop_underscores (prev : char) (s : str) : option str :=
  match s with
  | [] => if eqc prev 95%N then None else Some []
  | c :: s' =>
      if eqc c 95%N then
        if isdigit prev then drop_underscores c s' else None
      else if eqc prev 95%N && negb (isdigit c) then None
      else option_map (cons c) (drop_underscores c s')
  end.

(** The whitespace of the C locale, removed at both ends. *)
Definition isspace_c (c : char) : bool :=
  ((9 <=? c) && (c <=? 13) || (c =? 32))%N.

Definition strip_c (s : str) : str :=
  rstrip_by isspace_c (lstrip_by isspace_c s).

(** The leading digits of [s] and what follows them. *)
Fixpoint span_digits (s : str) : list Z * str :=
  match s with
  | c :: s' =>
      if isdigit c then
        let '(ds, r) := span_digits s' in (Z.of_N c - 48 :: ds, r)
      else ([], s)
  | [] => ([], [])
  end.

Definition digits_value (ds : list Z) : Z :=
  fold_left (fun a d => 10 * a + d) ds 0.

(** An optional sign: whether it is [-], and the rest. *)
Definition take_sign (s : str) : bool * str :=
  match s with
  | c :: s' =>
      if eqc c 45%N then (true, s')
      else if eqc c 43%N then (false, s')
      else (false, s)
  | [] => (false, [])
  end.

(** The exponent part, which must reach the end of the text. *)
Definition parse_exponent (s : str) : option Z :=
  match s with
  | [] => Some 0
  | c :: s' =>
      if eqc c 101%N || eqc c 69%N then
        let '(neg, r) := take_sign s' in
        match span_digits r with
        | ((_ :: _) as ds, []) =>
            Some (if neg then - digits_value ds else digits_value ds)
        | _ => None
        end
      else None
  end.

(** [digits [. digits] [exponent]] or [. digits [exponent]]: the
    digits [D] and the power of ten [k] of the value [D * 10^k]. *)
Definition parse_number (s : str) : option (Z * Z) :=
  let '(ip, r1) := span_digits s in
  let '(fp, r2) :=
    match r1 with
    | c :: r => if eqc c 46%N then span_digits r else ([], r1)
    | [] => ([], [])
    end in
  match ip ++ fp with
  | [] => None
  | ds =>
      match parse_exponent r2 with
      | Some x => Some (digits_value ds, x - Z.of_nat (List.length fp))
      | None => None
      end
  end.

Definition lower_c (c : char) : char :=
  if ((65 <=? c) && (c <=? 90))%N then (c + 32)%N else c.

Definition parse_float (s : str) : option float :=
  let '(neg, r) := take_sign s in
  match parse_number r with
  | Some (d, k) =>
      Some (if 0 <=? k then of_ratio neg (d * 10 ^ k) 1
            else of_ratio neg d (10 ^ (- k)))
  | None =>
      let w := map lower_c r in
      if eqs w (u "inf") || eqs w (u "infinity") then Some (Inf neg)
      else if eqs w (u "nan") then Some NaN
      else None
  end.

(** [float(s)] of a [str]: the nearest binary64 number to the decimal
    numeral, or [ValueError]. *)
Definition float_of_str (s : str) : result float :=
  match transform s with
  | None => Raise ValueError
  | Some a =>
      match drop_underscores 0%N a with
      | None => Raise ValueError
      | Some b =>
          match parse_float (strip_c b) with
          | Some x => Ok x
          | None => Raise ValueError
          end
      end
  end.

End Parse.

End Float.

Import Float.

(* ================================================================== *)
(** * The program *)
(* ================================================================== *)

(** A transaction is the dictionary that [parse_statement_text] builds: it
    is created with its six keys and only ever assigned at these keys, so it
    is a record ([rec.get(key, default)] never takes its default). *)
Record transaction := {
  name : str;
  date : str;
  amount : str;
  reference : str;
  note : str;
  id : str
}.

Definition set_date (v : str) (t : transaction) : transaction :=
  {| name := name t; date := v; amount := amount t;
     reference := reference t; note := note t; id := id t |}.
Definition set_amount (v : str) (t : transaction) : transaction :=
  {| name := name t; date := date t; amount := v;
     reference := reference t; note := note t; id := id t |}.
Definition set_reference (v : str) (t : transaction) : transaction :=
  {| name := name t; date := date t; amount := amount t;
     reference := v; note := note t; id := id t |}.
Definition set_note (v : str) (t : transaction) : transaction :=
  {| name := name t; date := date t; amount := amount t;
     reference := reference t; note := v; id := id t |}.
Definition set_id (v : str) (t : transaction) : transaction :=
  {| name := name t; date := date t; amount := amount t;
     reference := reference t; note := note t; id := v |}.

(** The dictionary that is passed to [writer.writerow]. *)
Record row := {
  row_date : str;
  row_amount : str;
  row_type : str;
  row_description : str
}.

(** The labels of the statement. *)
Definition L_cimzett : str := Eval vm_compute in u "Címzett neve".
Definition L_megbizo : str := Eval vm_compute in u "Megbízó neve".
Definition L_jovairas : str := Eval vm_compute in u "Jóváírás összege".
Definition L_terheles : str := Eval vm_compute in u "Terhelés összege".
Definition L_erteknap : str := Eval vm_compute in u "Értéknap".
Definition L_kozlemeny : str := Eval vm_compute in u "Közlemény".
Definition L_megjegyzes : str := Eval vm_compute in u "Megjegyzés".
Definition L_partner : str :=
  Eval vm_compute in u "Partnerek közti egyedi azonosító".

(** The state of the loop of [parse_statement_text]. *)
Record state := {
  transactions : list transaction;
  current : option transaction
}.

Section Program.

Context {U : Unicode}.

(** ** [split_label_value] *)

Definition split_label_value (line : str) : str * str :=
  let parts := split_gaps (strip line) in
  if (2 <=? List.length parts)%nat then
    let label := hd [] parts in
    let value := strip (join [SP] (tl parts)) in
    (label, value)
  else (strip line, []).

(** ** [parse_statement_text] *)

(** [amt_str], the text that is given to [float]: the value of an
    amount line without its currency markers and its whitespace, without
    its points and with its commas turned into points. *)
Definition amt_str_of_value (value : str) : str :=
  let amt_str := replace (u "Ft") [] (replace (u "HUF") [] value) in
  let amt_str := sub_spaces amt_str in
  replace (u ",") (u ".") (replace (u ".") [] amt_str).

(** The amount that is stored for the value of an amount line (the body
    of the branch of the amount labels). *)
Definition amount_of_value (value : str) : result str :=
  let amt_str := amt_str_of_value value in
  try_except_ValueError
    (amount_value <- float_of_str amt_str ;;
     Ok (format_2f amount_value))
    (Ok value).

(** The date that is stored for the value of a value-date line. *)
Definition date_of_value (value : str) : str :=
  let date_str := rstrip_chars (u ".") (strip value) in
  replace (u ".") (u "-") date_str.

Definition is_trigger (line : str) : bool :=
  startswith L_cimzett line || startswith L_megbizo line.

Definition is_amount (line : str) : bool :=
  contains L_jovairas line || contains L_terheles line.

Definition new_transaction (value : str) : transaction :=
  {| name := value; date := []; amount := []; reference := [];
     note := []; id := [] |}.

(** [if current: transactions.append(current)]; a transaction has six
    keys, so it is true whenever it is not [None]. *)
Definition flush (st : state) : list transaction :=
  match current st with
  | Some c => transactions st ++ [c]
  | None => transactions st
  end.

Definition with_current (st : state) (c : transaction) : state :=
  {| transactions := transactions st; current := Some c |}.

(** The body of the loop over the lines. *)
Definition step (st : state) (raw_line : str) : result state :=
  let line := strip raw_line in
  match line with
  | [] => Ok st
  | _ :: _ =>
      if is_trigger line then
        let value := snd (split_label_value raw_line) in
        Ok {| transactions := flush st;
              current := Some (new_transaction value) |}
      else
        match current st with
        | None => Ok st
        | Some cur =>
            if is_amount line then
              let value := snd (split_label_value raw_line) in
              a <- amount_of_value value ;;
              Ok (with_current st (set_amount a cur))
            else if startswith L_erteknap line then
              let value := snd (split_label_value raw_line) in
              Ok (with_current st (set_date (date_of_value value) cur))
            else if startswith L_kozlemeny line then
              let value := snd (split_label_value raw_line) in
              Ok (with_current st (set_reference value cur))
            else if startswith L_megjegyzes line then
              let value := snd (split_label_value raw_line) in
              Ok (with_current st (set_note value cur))
            else if startswith L_partner line then
              let value := snd (split_label_value raw_line) in
              Ok (with_current st (set_id value cur))
            else Ok st
        end
  end.

Definition initial : state := {| transactions := []; current := None |}.

Definition parse_lines (lines : list str) : result (list transaction) :=
  st <- for_each step initial lines ;;
  Ok (flush st).

Definition parse_statement_text (text : str) : result (list transaction) :=
  parse_lines (splitlines text).

End Program.

(** The nine categories. *)
Definition Expense : str := Eval vm_compute in u "Expense".
Definition Income : str := Eval vm_compute in u "Income".
Definition Refund : str := Eval vm_compute in u "Refund".
Definition Transfer : str := Eval vm_compute in u "Transfer".
Definition Investment_Buy : str := Eval vm_compute in u "Investment - Buy".
Definition Investment_Sell : str := Eval vm_compute in u "Investment - Sell".
Definition Investment_Dividend : str :=
  Eval vm_compute in u "Investment - Dividend".
Definition Investment_Capital_Gain : str :=
  Eval vm_compute in u "Investment - Capital Gain".
Definition Investment_Capital_Loss : str :=
  Eval vm_compute in u "Investment - Capital Loss".

Definition categories : list str :=
  [Expense; Income; Refund; Transfer; Investment_Buy; Investment_Sell;
   Investment_Dividend; Investment_Capital_Gain; Investment_Capital_Loss].

Section Classifier.

Context {U : Unicode}.

(** [x|y|...] over literal texts. *)
Fixpoint alts (x : str) (l : list str) : regex :=
  match l with
  | [] => Lit x
  | y :: l' => Alt (Lit x) (alts y l')
  end.

(** The patterns, in the order of the rules. *)
Definition re_refund : regex :=
  alts (u "refund") [u "visszatérítés"; u "visszautalás"].
Definition re_transfer : regex :=
  alts (u "átvezetés") [u "transfer"].
Definition re_dividend : regex :=
  alts (u "osztalék") [u "dividend"].
(** [[\s_-]] *)
Definition space_underscore_hyphen (c : char) : bool :=
  isspace c || eqc c 95%N || eqc c 45%N.
Definition re_gain : regex :=
  Alt (Seq (Lit (u "tőke"))
           (Seq (StarCls space_underscore_hyphen) (Lit (u "nyereség"))))
      (alts (u "capital gain") [u "nyereség"]).
Definition re_loss : regex :=
  alts (u "veszteség") [u "loss"].
Definition re_buy : regex :=
  Seq WordB (Seq (alts (u "buy") [u "purchase"; u "vétel"]) WordB).
Definition re_sell : regex :=
  Seq WordB (Seq (alts (u "sell") [u "eladás"]) WordB).
Definition re_salary : regex :=
  alts (u "/ref/salary") [u "salary"; u "munkabér"].
Definition re_interest : regex := Lit (u "kamat").
Definition re_expense : regex :=
  alts (u "pos")
       [u "kereskedői"; u "bankkártya"; u "kártya"; u "díja"; u "levonás";
        u "szocho"; u "hitel"; u "törlesztés"; u "biztosítás"; u "nyugd"].

(** [try: amount = float(amount_str) except Exception: pass], after
    [amount = 0.0]. *)
Definition amount_or_zero (amount_str : str) : float :=
  match float_of_str amount_str with
  | Ok x => x
  | Raise _ => Finite false 0 0
  end.

(** ** [_classify_transaction] *)

Definition _classify_transaction (description amount_str : str)
  : result str :=
  let desc := lower description in
  let amount := amount_or_zero amount_str in
  if search re_refund desc then Ok Refund
  else if search re_transfer desc then Ok Transfer
  else if search re_dividend desc then Ok Investment_Dividend
  else if search re_gain desc then Ok Investment_Capital_Gain
  else if search re_loss desc then Ok Investment_Capital_Loss
  else if search re_buy desc then Ok Investment_Buy
  else if search re_sell desc then Ok Investment_Sell
  else if search re_salary desc then Ok Income
  else if search re_interest desc then
    Ok (if gt0 amount then Income else Expense)
  else if search re_expense desc then Ok Expense
  else if gt0 amount then Ok Income
  else if lt0 amount then Ok Expense
  else Ok Transfer.

(** ** The rows of [convert_pdf_to_csv] *)

(** [a or b] on strings. *)
Definition or_else (a b : str) : str :=
  match a with
  | [] => b
  | _ :: _ => a
  end.

Definition nonempty (s : str) : bool :=
  match s with
  | [] => false
  | _ :: _ => true
  end.

(** The body of the loop over the records: the row that is written. *)
Definition output_row (rec : transaction) : result row :=
  let base_desc := strip (or_else (reference rec) (note rec)) in
  let name_part := strip (name rec) in
  let description :=
    if nonempty name_part && nonempty base_desc
    then name_part ++ u " - " ++ base_desc
    else if nonempty name_part then name_part
    else base_desc in
  txn_type <- _classify_transaction base_desc (amount rec) ;;
  Ok {| row_date := date rec;
        row_amount := amount rec;
        row_type := txn_type;
        row_description := description |}.

Definition write_row (rows : list row) (rec : transaction)
  : result (list row) :=
  r <- output_row rec ;; Ok (rows ++ [r]).

(** [convert_pdf_to_csv] from the extracted text on: the rows that are
    written after the header, in their order.  The extraction of the text
    and the file are outside the embedding. *)
Definition convert_pdf_to_csv (text : str) : result (list row) :=
  records <- parse_statement_text text ;;
  for_each write_row [] records.

End Classifier.

(* ================================================================== *)
(** * The statements of the specification *)
(* ================================================================== *)

(** Definitions that the properties below are stated with: the lines that
    open a record, the two normalizations that the specification words
    differently from the program, and the scenario of a single block. *)

(** The value of a trigger line, which becomes the name of its record. *)
Definition trigger_value (raw_line : str) : str :=
  snd (split_label_value raw_line).

Definition is_trigger_line (raw_line : str) : bool :=
  is_trigger (strip raw_line).

(** ** The value date *)

Definition dot : char := 46%N.
Definition hyphen : char := 45%N.

(** The normalization of the date as the specification words it: the
    value is trimmed, one trailing point is dropped if there is one, and
    every remaining point becomes a hyphen. *)
Definition drop_one_trailing_dot (s : str) : str :=
  match rev s with
  | c :: r => if eqc c dot then rev r else s
  | [] => []
  end.

Definition date_of_value_spec (value : str) : str :=
  replace [dot] [hyphen] (drop_one_trailing_dot (strip value)).

(** ** The splitter *)

(** The contract of the splitter as the specification words it, on a text
    [s]: whether [s] has a run of two or more whitespace characters, the
    text before the first such run, and the text after it. *)
Fixpoint has_gap (s : str) : bool :=
  match s with
  | c :: s' =>
      match s' with
      | d :: _ => isspace c && isspace d || has_gap s'
      | [] => false
      end
  | [] => false
  end.

Fixpoint before_gap (s : str) : str :=
  match s with
  | c :: s' =>
      match s' with
      | d :: _ => if isspace c && isspace d then [] else c :: before_gap s'
      | [] => [c]
      end
  | [] => []
  end.

Fixpoint after_gap (s : str) : str :=
  match s with
  | c :: s' =>
      match s' with
      | d :: _ =>
          if isspace c && isspace d then dropwhile isspace s'
          else after_gap s'
      | [] => []
      end
  | [] => []
  end.

(** The label is the trimmed text before the first run, the value the
    segments after it joined by single spaces and trimmed; without a run
    the label is the trimmed text and the value is empty. *)
Definition split_label_value_spec (s : str) : str * str :=
  if has_gap s
  then (strip (before_gap s), strip (join [SP] (split_gaps (after_gap s))))
  else (strip s, []).

(** [s] does not start with a whitespace character. *)
Definition starts_ok (s : str) : bool :=
  match s with
  | c :: _ => negb (isspace c)
  | [] => true
  end.

(** ** The scenario *)

(** The four lines of the block, each label followed by [n] spaces and
    by its value, and the text that they make up. *)
Definition scenario_lines (n1 n2 n3 n4 : nat) : list str :=
  [ L_cimzett ++ repeat SP n1 ++ u "ACME Ltd";
    L_erteknap ++ repeat SP n2 ++ u "2024.03.01.";
    L_jovairas ++ repeat SP n3 ++ u "10 000 HUF";
    L_kozlemeny ++ repeat SP n4 ++ u "Invoice 42" ].

Definition scenario (n1 n2 n3 n4 : nat) : str :=
  join [LF] (scenario_lines n1 n2 n3 n4).

Definition scenario_record : transaction :=
  {| name := u "ACME Ltd"; date := u "2024-03-01"; amount := u "10000.00";
     reference := u "Invoice 42"; note := []; id := [] |}.

(** ** Further notions *)

(** A text without whitespace at its two ends and without a run of two
    or more whitespace characters. *)
Definition clean (s : str) : bool :=
  starts_ok s && starts_ok (rev s) && negb (has_gap s).

(** The fields that a line can assign. *)
Inductive field := F_amount | F_date | F_reference | F_note | F_id.

(** The field that a trimmed line assigns while a record is open: the
    tests of the loop, in their order. *)
Definition field_of (line : str) : option field :=
  if is_amount line then Some F_amount
  else if startswith L_erteknap line then Some F_date
  else if startswith L_kozlemeny line then Some F_reference
  else if startswith L_megjegyzes line then Some F_note
  else if startswith L_partner line then Some F_id
  else None.

(** A line that the loop reacts to: a trigger line or a line of a
    field. *)
Definition is_relevant (raw_line : str) : bool :=
  is_trigger_line raw_line
  || match field_of (strip raw_line) with Some _ => true | None => false end.

(** What a line that is no trigger line makes of the open record
    [cur]. *)
Definition assign {U : Unicode} (raw_line : str) (cur : transaction)
  : result transaction :=
  let value := snd (split_label_value raw_line) in
  match field_of (strip raw_line) with
  | Some F_amount => a <- amount_of_value value ;; Ok (set_amount a cur)
  | Some F_date => Ok (set_date (date_of_value value) cur)
  | Some F_reference => Ok (set_reference value cur)
  | Some F_note => Ok (set_note value cur)
  | Some F_id => Ok (set_id value cur)
  | None => Ok cur
  end.

(** The finalized records and the open record of a state satisfy
    [P]. *)
Definition all_records (P : transaction -> Prop) (st : state) : Prop :=
  Forall P (transactions st) /\ forall c, current st = Some c -> P c.

(** The text fields of a record are clean. *)
Definition clean_fields (r : transaction) : Prop :=
  clean (name r) = true /\ clean (reference r) = true
  /\ clean (note r) = true /\ clean (id r) = true.

(** The state [st] with the records [p] put before its finalized
    records. *)
Definition add_prefix (p : list transaction) (st : state) : state :=
  {| transactions := p ++ transactions st; current := current st |}.

(** The description of a row without the two calls of [strip]. *)
Definition describe (r : transaction) : str :=
  let base := or_else (reference r) (note r) in
  if nonempty (name r) && nonempty base then name r ++ u " - " ++ base
  else if nonempty (name r) then name r
  else base.

(* ================================================================== *)
(** * Properties of the regular expressions *)
(* ================================================================== *)

Section SearchFacts.

Context {U : Unicode}.

Lemma after_lit_startswith (l : str) (prev : option char) (s : str) :
  match after_lit l prev s with Some _ => true | None => false end
  = startswith l s.
Proof.
  revert prev s; induction l as [|x l IH]; intros prev s; simpl.
  - reflexivity.
  - destruct s as [|y s]; [reflexivity|].
    destruct (eqc x y); simpl; [apply IH | reflexivity].
Qed.

Lemma matches_Lit_accept (l : str) (prev : option char) (s : str) :
  matches (Lit l) accept prev s = startswith l s.
Proof.
  simpl. rewrite <- (after_lit_startswith l prev s).
  destruct (after_lit l prev s) as [[p r]|]; reflexivity.
Qed.

(** A literal pattern is found exactly when the text contains it. *)
Lemma search_from_Lit (l : str) (prev : option char) (s : str) :
  search_from (Lit l) prev s = contains l s.
Proof.
  revert prev; induction s as [|c s IH]; intros prev.
  - cbn [search_from contains]. now rewrite matches_Lit_accept.
  - cbn [search_from contains]. now rewrite matches_Lit_accept, IH.
Qed.

(** An alternation is found exactly when one of its sides is. *)
Lemma search_from_Alt (a b : regex) (prev : option char) (s : str) :
  search_from (Alt a b) prev s = search_from a prev s || search_from b prev s.
Proof.
  revert prev; induction s as [|c s IH]; intros prev;
    cbn [search_from matches].
  - now rewrite !orb_false_r.
  - rewrite IH.
    destruct (matches a accept prev (c :: s)), (matches b accept prev (c :: s)),
      (search_from a (Some c) s); reflexivity.
Qed.

(** An alternation of keywords is found exactly when the text contains
    one of the keywords. *)
Lemma search_alts (x : str) (l : list str) (s : str) :
  search (alts x l) s = existsb (fun k => contains k s) (x :: l).
Proof.
  unfold search. revert x; induction l as [|y l IH]; intros x.
  - cbn [alts existsb]. now rewrite search_from_Lit, orb_false_r.
  - cbn [alts]. rewrite search_from_Alt, search_from_Lit, IH. reflexivity.
Qed.

End SearchFacts.

(* ================================================================== *)
(** * The classifier *)
(* ================================================================== *)

Lemma categories_distinct : NoDup categories.
Proof.
  unfold categories.
  repeat (constructor; [cbv; intuition discriminate|]). constructor.
Qed.

(** The numeral [0] is a zero whatever the tables are. *)
Lemma amount_or_zero_0 {U : Unicode} : amount_or_zero (u "0") = Finite false 0 0.
Proof. reflexivity. Qed.

(** C7. The classifier returns, for every description and every amount
    text, without raising, one of the nine categories (which are pairwise
    distinct); an amount text that [float] rejects is classified as the
    amount [0] is; and a description whose lower-cased text contains one of
    the refund keywords is a [Refund] whatever the amount text is. *)
Theorem C7_classifier_total (U : Unicode) (description amount_str : str) :
  exists label,
    _classify_transaction description amount_str = Ok label
    /\ In label categories
    /\ NoDup categories
    /\ (forall e, float_of_str amount_str = Raise e ->
        _classify_transaction description amount_str
        = _classify_transaction description (u "0"))
    /\ (existsb (fun k => contains k (lower description))
          [u "refund"; u "visszatérítés"; u "visszautalás"] = true ->
        label = Refund).
Proof.
  assert (Hz : forall e, float_of_str amount_str = Raise e ->
               _classify_transaction description amount_str
               = _classify_transaction description (u "0")).
  { intros e He. unfold _classify_transaction.
    rewrite amount_or_zero_0. unfold amount_or_zero. rewrite He. reflexivity. }
  unfold _classify_transaction in *.
  rewrite <- (search_alts (u "refund") [u "visszatérítés"; u "visszautalás"]).
  fold re_refund.
  destruct (search re_refund (lower description)).
  { exists Refund. split; [reflexivity|]. split; [simpl; tauto|].
    split; [apply categories_distinct|]. split; [exact Hz | reflexivity]. }
  repeat match goal with
  | |- context [if ?b then _ else _] => destruct b
  end;
  (eexists; split; [reflexivity|]; split; [simpl; tauto|];
   split; [apply categories_distinct|]; split; [exact Hz | discriminate]).
Qed.

Lemma C7_classifier_total_witness :
  @_classify_transaction Latin.tables (u "Visszatérítés - Refund #7")
    (u "12 EUR")
  = Ok Refund.
Proof.
  destruct (C7_classifier_total Latin.tables (u "Visszatérítés - Refund #7")
              (u "12 EUR")) as (label & Hc & _ & _ & _ & Hr).
  rewrite Hc. f_equal. apply Hr. vm_compute. reflexivity.
Defined.

(** C8. A description whose lower-cased text contains "osztalék" and in
    which neither the refund nor the transfer pattern is found is an
    [Investment - Dividend] for every amount text: the sign of the amount is
    not consulted (so a positive amount does not make it an [Income]). *)
Theorem C8_dividend_before_sign (U : Unicode) (description amount_str : str) :
  contains (u "osztalék") (lower description) = true ->
  search re_refund (lower description) = false ->
  search re_transfer (lower description) = false ->
  _classify_transaction description amount_str = Ok Investment_Dividend
  /\ Investment_Dividend <> Income.
Proof.
  intros Hc Hr Ht. split; [|discriminate].
  unfold _classify_transaction. rewrite Hr, Ht.
  unfold re_dividend. rewrite search_alts. cbn [existsb].
  rewrite Hc. reflexivity.
Qed.

Lemma C8_dividend_before_sign_witness :
  @_classify_transaction Latin.tables (u "OSZTALÉK kifizetés") (u "100.00")
  = Ok Investment_Dividend
  /\ Investment_Dividend <> Income.
Proof.
  apply (@C8_dividend_before_sign Latin.tables); vm_compute; reflexivity.
Defined.

(** C10. A record with a non-empty reference is written as the same row
    whatever its note is: two records that agree on every field but the
    note give the same row, hence the same description and the same
    type. *)
Theorem C10_row_independent_of_note (U : Unicode) (r1 r2 : transaction) :
  reference r1 <> [] ->
  name r1 = name r2 -> date r1 = date r2 -> amount r1 = amount r2 ->
  reference r1 = reference r2 -> id r1 = id r2 ->
  output_row r1 = output_row r2.
Proof.
  intros Hne Hn Hd Ha Hr Hi. unfold output_row.
  rewrite <- Hn, <- Hd, <- Ha, <- Hr.
  destruct (reference r1) as [|c r]; [contradiction|]. reflexivity.
Qed.

Lemma C10_row_independent_of_note_witness :
  let r1 := {| name := u "ACME Ltd"; date := u "2024-03-01";
               amount := u "10000.00"; reference := u "Invoice 42";
               note := u "osztalék"; id := [] |} in
  let r2 := set_note (u "refund") r1 in
  @output_row Latin.tables r1 = @output_row Latin.tables r2.
Proof.
  apply (@C10_row_independent_of_note Latin.tables);
    [discriminate | reflexivity ..].
Defined.

(* ================================================================== *)
(** * The amounts *)
(* ================================================================== *)

(** C3. The value text "1 234,56 HUF" is stored as the amount "1234.56"
    and the value text "-12.345,00 Ft" as "-12345.00": the currency
    markers, the whitespace and the points are removed, the comma becomes
    the decimal point, and the number is written with two fraction digits
    and its sign. *)
Theorem C3_amount_normalization (U : Unicode) :
  amount_of_value (u "1 234,56 HUF") = Ok (u "1234.56")
  /\ amount_of_value (u "-12.345,00 Ft") = Ok (u "-12345.00").
Proof. split; vm_compute; reflexivity. Qed.

(** The same with a non-breaking space between the thousands. *)
Example amount_with_nbsp (U : Unicode) :
  amount_of_value (u "1" ++ [160%N] ++ u "234,56 HUF") = Ok (u "1234.56").
Proof. vm_compute; reflexivity. Qed.

(** The branch of the amount labels never raises. *)
Lemma amount_of_value_ok {U : Unicode} (value : str) :
  exists a, amount_of_value value = Ok a.
Proof.
  unfold amount_of_value.
  destruct (float_of_str (amt_str_of_value value)) as [x|[]]; simpl; eauto.
Qed.

(* ================================================================== *)
(** * Properties of the string operations *)
(* ================================================================== *)

Lemma eqc_eq (a b : char) : eqc a b = true <-> a = b.
Proof. apply N.eqb_eq. Qed.

Lemma eqc_refl (a : char) : eqc a a = true.
Proof. apply N.eqb_refl. Qed.

Lemma startswith_app (p s : str) : startswith p (p ++ s) = true.
Proof.
  induction p as [|x p IH]; simpl; [reflexivity|].
  now rewrite eqc_refl, IH.
Qed.

Lemma startswith_split (p s : str) :
  startswith p s = true -> exists post, s = p ++ post.
Proof.
  revert s; induction p as [|x p IH]; intros s H; simpl in *.
  - now exists s.
  - destruct s as [|y s]; [discriminate|].
    apply andb_true_iff in H as [Hxy Hp]. apply eqc_eq in Hxy; subst y.
    destruct (IH _ Hp) as [post ->]. now exists post.
Qed.

Lemma startswith_contains (p s : str) :
  startswith p s = true -> contains p s = true.
Proof. intros H. destruct s; cbn [contains]; now rewrite H. Qed.

(** [p in s] holds exactly when [p] occurs somewhere in [s]. *)
Lemma contains_iff (p s : str) :
  contains p s = true <-> exists pre post, s = pre ++ p ++ post.
Proof.
  split.
  - induction s as [|c s IH]; cbn [contains]; intros H.
    + rewrite orb_false_r in H. apply startswith_split in H as [post Hs].
      exists [], post. exact Hs.
    + apply orb_true_iff in H as [H|H].
      * apply startswith_split in H as [post Hs]. exists [], post. exact Hs.
      * destruct (IH H) as (pre & post & ->). now exists (c :: pre), post.
  - intros (pre & post & ->). induction pre as [|c pre IH].
    + cbn [app]. apply startswith_contains, startswith_app.
    + cbn [app contains]. rewrite IH. apply orb_true_r.
Qed.

Lemma replace_char (a b : char) (s : str) :
  replace [a] [b] s = map (fun c => if eqc a c then b else c) s.
Proof.
  unfold replace. induction s as [|c s IH]; [reflexivity|].
  cbn [replace_from startswith map List.length Nat.sub].
  rewrite andb_true_r. destruct (eqc a c); cbn [app]; now rewrite IH.
Qed.

Lemma dropwhile_split (p : char -> bool) (s : str) :
  exists t, s = t ++ dropwhile p s /\ forallb p t = true.
Proof.
  induction s as [|c s (t & Hs & Ht)]; simpl.
  - now exists [].
  - destruct (p c) eqn:Hc.
    + exists (c :: t). simpl. rewrite Hc, Ht. split; [now f_equal | reflexivity].
    + now exists [].
Qed.

Lemma dropwhile_head (p : char -> bool) (s : str) (c : char) (r : str) :
  dropwhile p s = c :: r -> p c = false.
Proof.
  induction s as [|d s IH]; simpl; [discriminate|].
  destruct (p d) eqn:Hd; [exact IH|]. now intros [= <- _].
Qed.

(** What [rstrip] keeps and what it removes: the removed end consists of
    characters of the class, and the kept text does not end with one. *)
Lemma rstrip_by_split (p : char -> bool) (s : str) :
  exists t, s = rstrip_by p s ++ t /\ forallb p t = true
            /\ forall b c, rstrip_by p s = b ++ [c] -> p c = false.
Proof.
  unfold rstrip_by. destruct (dropwhile_split p (rev s)) as (t & Hs & Ht).
  exists (rev t). split; [|split].
  - rewrite <- rev_app_distr, <- Hs. now rewrite rev_involutive.
  - rewrite forallb_forall in *. intros x Hx. apply Ht. now apply in_rev.
  - intros b c Hb.
    apply (f_equal (@rev char)) in Hb.
    rewrite rev_involutive, rev_app_distr in Hb. simpl in Hb.
    now apply dropwhile_head in Hb.
Qed.

Lemma forallb_eqc_repeat (a : char) (t : str) :
  forallb (fun c => existsb (eqc c) [a]) t = true ->
  t = repeat a (List.length t).
Proof.
  induction t as [|c t IH]; simpl; [reflexivity|].
  rewrite orb_false_r. intros H. apply andb_true_iff in H as [Hc Ht].
  apply eqc_eq in Hc; subst c. now rewrite <- IH.
Qed.

(** With the tables of the Latin range, a description in which "osztalék"
    occurs in any letter case has a lower-cased text that contains it. *)
Lemma osztalek_in_any_case (pre w post : str) :
  Latin.latin_lower w = u "osztalék" ->
  contains (u "osztalék") (@lower Latin.tables (pre ++ w ++ post)) = true.
Proof.
  intros Hw. apply contains_iff.
  exists (Latin.latin_lower pre), (Latin.latin_lower post).
  cbn [lower Latin.tables]. unfold Latin.latin_lower in *.
  now rewrite !flat_map_app, Hw.
Qed.

(* ================================================================== *)
(** * One line of the statement *)
(* ================================================================== *)

Section StepFacts.

Context {U : Unicode}.

(** A trigger line closes the open record and opens a new one. *)
Lemma step_trigger (st : state) (raw_line : str) :
  is_trigger (strip raw_line) = true ->
  step st raw_line
  = Ok {| transactions := flush st;
          current :=
            Some (new_transaction (snd (split_label_value raw_line))) |}.
Proof.
  unfold step. destruct (strip raw_line) as [|c l]; [discriminate|].
  now intros ->.
Qed.

(** A line that is no trigger line, while no record is open. *)
Lemma step_closed (st : state) (raw_line : str) :
  current st = None ->
  is_trigger (strip raw_line) = false ->
  step st raw_line = Ok st.
Proof.
  unfold step. intros Hc Ht.
  destruct (strip raw_line) as [|c l]; [reflexivity|].
  now rewrite Ht, Hc.
Qed.

(** A line that is no trigger line, while the record [cur] is open: the
    first label that is recognized decides (a blank line has none). *)
Lemma step_open (st : state) (cur : transaction) (raw_line : str) :
  current st = Some cur ->
  is_trigger (strip raw_line) = false ->
  step st raw_line
  = let line := strip raw_line in
    let value := snd (split_label_value raw_line) in
    if is_amount line then
      a <- amount_of_value value ;; Ok (with_current st (set_amount a cur))
    else if startswith L_erteknap line then
      Ok (with_current st (set_date (date_of_value value) cur))
    else if startswith L_kozlemeny line then
      Ok (with_current st (set_reference value cur))
    else if startswith L_megjegyzes line then
      Ok (with_current st (set_note value cur))
    else if startswith L_partner line then
      Ok (with_current st (set_id value cur))
    else Ok st.
Proof.
  unfold step. intros Hc Ht.
  destruct (strip raw_line) as [|c l]; [reflexivity|].
  now rewrite Ht, Hc.
Qed.

Lemma with_current_same (st : state) (cur : transaction) :
  current st = Some cur -> with_current st cur = st.
Proof. destruct st as [ts c]; simpl; intros ->; reflexivity. Qed.

(** A line that starts with one of the labels of the fields is no
    trigger line. *)
Lemma erteknap_not_trigger (line : str) :
  startswith L_erteknap line = true -> is_trigger line = false.
Proof.
  destruct line as [|c l]; [discriminate|].
  unfold L_erteknap, is_trigger, L_cimzett, L_megbizo. cbn [startswith].
  intros H. apply andb_true_iff in H as [Hc _].
  apply eqc_eq in Hc; subst c. reflexivity.
Qed.

(** Every line is processed without raising. *)
Lemma step_ok (st : state) (raw_line : str) :
  exists st', step st raw_line = Ok st'.
Proof.
  destruct (is_trigger (strip raw_line)) eqn:Ht.
  - rewrite step_trigger by assumption. eauto.
  - destruct (current st) as [cur|] eqn:Hc.
    + rewrite (step_open _ _ Hc Ht). cbv zeta.
      destruct (amount_of_value_ok (snd (split_label_value raw_line)))
        as [a Ha].
      rewrite Ha. cbn [bind].
      repeat match goal with
      | |- context [if ?b then _ else _] => destruct b
      end; eauto.
    + rewrite step_closed by assumption. eauto.
Qed.

Lemma for_each_step_ok (lines : list str) (st : state) :
  exists st', for_each step st lines = Ok st'.
Proof.
  revert st; induction lines as [|l lines IH]; intros st; simpl.
  - eauto.
  - destruct (step_ok st l) as [st1 ->]. cbn [bind]. apply IH.
Qed.

(** No exception escapes the parser. *)
Lemma parse_statement_text_ok (text : str) :
  exists records, parse_statement_text text = Ok records.
Proof.
  unfold parse_statement_text, parse_lines.
  destruct (for_each_step_ok (splitlines text) initial) as [st ->].
  cbn [bind]. eauto.
Qed.

End StepFacts.

(** C4, as the program has it.  On an amount line (a record is open, the
    line is no trigger line and an amount label occurs in it) whose
    normalized text [amt_str] is rejected by [float], the amount of the
    record becomes the value of the line as it was split off, currency
    marker, inner spaces and separators included, and not the normalized
    text; and the parser returns for every text, without raising. *)
Theorem C4_amount_fallback_is_raw_value (U : Unicode) :
  (forall (st : state) (cur : transaction) (raw_line : str) (e : exn),
      current st = Some cur ->
      is_trigger (strip raw_line) = false ->
      is_amount (strip raw_line) = true ->
      float_of_str (amt_str_of_value (snd (split_label_value raw_line)))
      = Raise e ->
      step st raw_line
      = Ok (with_current st
              (set_amount (snd (split_label_value raw_line)) cur)))
  /\ (forall text : str, exists records, parse_statement_text text = Ok records).
Proof.
  split; [|apply parse_statement_text_ok].
  intros st cur raw_line e Hc Ht Ha He.
  rewrite (step_open _ _ Hc Ht). cbv zeta. rewrite Ha.
  unfold amount_of_value. rewrite He. destruct e. reflexivity.
Qed.

Lemma C4_amount_fallback_is_raw_value_witness :
  let cur := new_transaction (u "ACME Ltd") in
  let st := {| transactions := []; current := Some cur |} in
  @step Latin.tables st (u "Jóváírás összege   abc HUF")
  = Ok (with_current st (set_amount (u "abc HUF") cur)).
Proof.
  intros cur st.
  apply (proj1 (C4_amount_fallback_is_raw_value Latin.tables)
           st cur (u "Jóváírás összege   abc HUF") ValueError);
    vm_compute; reflexivity.
Defined.

(** The claim C4 fails on the line "Jóváírás összege   abc HUF": the
    normalized text is "abc", [float] rejects it, and the amount that is
    stored is "abc HUF". *)
Lemma C4_counterexample :
  let raw_line := u "Jóváírás összege   abc HUF" in
  let cur := new_transaction (u "ACME Ltd") in
  let st := {| transactions := []; current := Some cur |} in
  let value := snd (split_label_value raw_line) in
  is_trigger (strip raw_line) = false
  /\ is_amount (strip raw_line) = true
  /\ amt_str_of_value value = u "abc"
  /\ @float_of_str Latin.tables (amt_str_of_value value) = Raise ValueError
  /\ @step Latin.tables st raw_line
     = Ok (with_current st (set_amount (u "abc HUF") cur))
  /\ @step Latin.tables st raw_line
     <> Ok (with_current st (set_amount (amt_str_of_value value) cur)).
Proof.
  repeat split; try (vm_compute; reflexivity).
  vm_compute. discriminate.
Qed.

(* ================================================================== *)
(** * The value date *)
(* ================================================================== *)

(** What [date_of_value] computes: the trimmed value is a text that does
    not end with a point, followed by points only; the date is that text
    with its points turned into hyphens. *)
Lemma date_of_value_char (value : str) :
  exists (body : str) (k : nat),
    strip value = body ++ repeat dot k
    /\ (forall b, body <> b ++ [dot])
    /\ date_of_value value
       = map (fun c => if eqc dot c then hyphen else c) body.
Proof.
  unfold date_of_value, rstrip_chars.
  destruct (rstrip_by_split (fun c => existsb (eqc c) (u ".")) (strip value))
    as (t & Hs & Ht & Hlast).
  exists (rstrip_by (fun c => existsb (eqc c) (u ".")) (strip value)),
         (List.length t).
  split; [|split].
  - rewrite Hs at 1. f_equal. now apply forallb_eqc_repeat.
  - intros b Hb. apply Hlast in Hb. discriminate.
  - apply (replace_char dot hyphen).
Qed.

(** C5, as the program has it.  On a value-date line (a record is open,
    no amount label occurs in the line and its trimmed text starts with
    "Értéknap") the date of the record becomes the trimmed value without
    all of its trailing points, however many, and with every remaining
    point turned into a hyphen. *)
Theorem C5_date_drops_all_trailing_dots
  (U : Unicode) (st : state) (cur : transaction) (raw_line : str) :
  current st = Some cur ->
  is_amount (strip raw_line) = false ->
  startswith L_erteknap (strip raw_line) = true ->
  let value := snd (split_label_value raw_line) in
  step st raw_line = Ok (with_current st (set_date (date_of_value value) cur))
  /\ exists (body : str) (k : nat),
       strip value = body ++ repeat dot k
       /\ (forall b, body <> b ++ [dot])
       /\ date_of_value value
          = map (fun c => if eqc dot c then hyphen else c) body.
Proof.
  intros Hc Ha He value. split; [|apply date_of_value_char].
  rewrite (step_open _ _ Hc (erteknap_not_trigger _ He)).
  cbv zeta. now rewrite Ha, He.
Qed.

Lemma C5_date_drops_all_trailing_dots_witness :
  let cur := new_transaction (u "ACME Ltd") in
  let st := {| transactions := []; current := Some cur |} in
  let raw_line := u "Értéknap   2024.03.01.." in
  let value := snd (split_label_value raw_line) in
  @step Latin.tables st raw_line
  = Ok (with_current st (set_date (date_of_value value) cur))
  /\ exists (body : str) (k : nat),
       strip value = body ++ repeat dot k
       /\ (forall b, body <> b ++ [dot])
       /\ date_of_value value
          = map (fun c => if eqc dot c then hyphen else c) body.
Proof.
  intros cur st raw_line.
  apply (@C5_date_drops_all_trailing_dots Latin.tables st cur raw_line);
    vm_compute; reflexivity.
Defined.

(** The claim C5 fails on the line "Értéknap   2024.03.01..": dropping
    one point would give "2024-03-01-", the date that is stored is
    "2024-03-01". *)
Lemma C5_counterexample :
  let cur := new_transaction (u "ACME Ltd") in
  let st := {| transactions := []; current := Some cur |} in
  let raw_line := u "Értéknap   2024.03.01.." in
  let value := snd (split_label_value raw_line) in
  value = u "2024.03.01.."
  /\ date_of_value_spec value = u "2024-03-01-"
  /\ @step Latin.tables st raw_line
     = Ok (with_current st (set_date (u "2024-03-01") cur))
  /\ @step Latin.tables st raw_line
     <> Ok (with_current st (set_date (date_of_value_spec value) cur)).
Proof.
  repeat split; try (vm_compute; reflexivity).
  vm_compute. discriminate.
Qed.

(* ================================================================== *)
(** * How the lines are recognized *)
(* ================================================================== *)

(** C9, as the program has it.  While a record is open, a line that does
    not start with a counterparty-name label and in whose trimmed text an
    amount label occurs anywhere assigns the amount of the open record, and
    nothing else; a line without an amount label leaves the amount, and
    assigns the date, the reference, the note or the partner id only if its
    trimmed text starts with the label of that field. *)
Theorem C9_amount_by_containment_fields_by_prefix
  (U : Unicode) (st : state) (cur : transaction) (raw_line : str) :
  current st = Some cur ->
  is_trigger (strip raw_line) = false ->
  ((exists pre post,
       strip raw_line = pre ++ L_jovairas ++ post
       \/ strip raw_line = pre ++ L_terheles ++ post) ->
   exists a,
     amount_of_value (snd (split_label_value raw_line)) = Ok a
     /\ step st raw_line = Ok (with_current st (set_amount a cur)))
  /\ (is_amount (strip raw_line) = false ->
      exists cur',
        step st raw_line = Ok (with_current st cur')
        /\ name cur' = name cur
        /\ amount cur' = amount cur
        /\ (startswith L_erteknap (strip raw_line) = false ->
            date cur' = date cur)
        /\ (startswith L_kozlemeny (strip raw_line) = false ->
            reference cur' = reference cur)
        /\ (startswith L_megjegyzes (strip raw_line) = false ->
            note cur' = note cur)
        /\ (startswith L_partner (strip raw_line) = false ->
            id cur' = id cur)).
Proof.
  intros Hc Ht. rewrite (step_open _ _ Hc Ht). cbv zeta. split.
  - intros (pre & post & Hl).
    assert (Ha : is_amount (strip raw_line) = true).
    { unfold is_amount. apply orb_true_iff.
      destruct Hl as [Hl|Hl]; [left|right]; apply contains_iff; eauto. }
    rewrite Ha.
    destruct (amount_of_value_ok (snd (split_label_value raw_line))) as [a Ea].
    exists a. rewrite Ea. split; reflexivity.
  - intros Ha. rewrite Ha.
    destruct (startswith L_erteknap (strip raw_line)).
    { eexists; split; [reflexivity|]. simpl. intuition discriminate. }
    destruct (startswith L_kozlemeny (strip raw_line)).
    { eexists; split; [reflexivity|]. simpl. intuition discriminate. }
    destruct (startswith L_megjegyzes (strip raw_line)).
    { eexists; split; [reflexivity|]. simpl. intuition discriminate. }
    destruct (startswith L_partner (strip raw_line)).
    { eexists; split; [reflexivity|]. simpl. intuition discriminate. }
    exists cur. rewrite (with_current_same _ Hc). intuition reflexivity.
Qed.

Lemma C9_amount_by_containment_fields_by_prefix_witness :
  let cur := new_transaction (u "ACME Ltd") in
  let st := {| transactions := []; current := Some cur |} in
  exists a,
    @amount_of_value Latin.tables
      (snd (split_label_value (u "Ebből Terhelés összege   -500 HUF"))) = Ok a
    /\ @step Latin.tables st (u "Ebből Terhelés összege   -500 HUF")
       = Ok (with_current st (set_amount a cur)).
Proof.
  intros cur st.
  apply (proj1 (@C9_amount_by_containment_fields_by_prefix Latin.tables
                  st cur (u "Ebből Terhelés összege   -500 HUF")
                  eq_refl eq_refl)).
  exists (u "Ebből "), (u "   -500 HUF"). right. vm_compute. reflexivity.
Defined.

(** The claim C9 fails on the line "Címzett neve   Jóváírás összege Kft":
    an amount label occurs in it, but it starts with a counterparty-name
    label, so the open record is closed with its amount as it was and a new
    record with an empty amount is opened. *)
Lemma C9_counterexample :
  let cur := set_amount (u "1.00") (new_transaction (u "ACME Ltd")) in
  let st := {| transactions := []; current := Some cur |} in
  let raw_line := u "Címzett neve   Jóváírás összege Kft" in
  contains L_jovairas (strip raw_line) = true
  /\ @step Latin.tables st raw_line
     = Ok {| transactions := [cur];
             current := Some (new_transaction (u "Jóváírás összege Kft")) |}
  /\ forall a, @step Latin.tables st raw_line
               <> Ok (with_current st (set_amount a cur)).
Proof.
  repeat split; try (vm_compute; reflexivity).
  intros a. vm_compute. discriminate.
Qed.

(* ================================================================== *)
(** * The records of a statement *)
(* ================================================================== *)

Section ParserFacts.

Context {U : Unicode}.

Lemma flush_with_current (st : state) (c : transaction) :
  flush (with_current st c) = transactions st ++ [c].
Proof. reflexivity. Qed.

Lemma flush_open (st : state) (c : transaction) :
  current st = Some c -> flush st = transactions st ++ [c].
Proof. unfold flush. now intros ->. Qed.

(** A line that is no trigger line adds no record and changes no
    name. *)
Lemma step_keeps_names (st : state) (raw_line : str) :
  is_trigger_line raw_line = false ->
  exists st',
    step st raw_line = Ok st'
    /\ map name (flush st') = map name (flush st).
Proof.
  unfold is_trigger_line. intros Ht.
  destruct (current st) as [cur|] eqn:Hc.
  - rewrite (step_open _ _ Hc Ht). cbv zeta.
    rewrite (flush_open _ Hc).
    destruct (amount_of_value_ok (snd (split_label_value raw_line)))
      as [a ->].
    cbn [bind].
    repeat match goal with
    | |- context [if ?b then _ else _] => destruct b
    end;
    (eexists; split; [reflexivity|]);
    rewrite ?flush_with_current, ?(flush_open _ Hc), !map_app;
    reflexivity.
  - rewrite step_closed by assumption. eauto.
Qed.

(** The names of the records after a run of the loop: those before, then
    the values of the trigger lines, in their order. *)
Lemma for_each_step_names (lines : list str) (st : state) :
  exists st',
    for_each step st lines = Ok st'
    /\ map name (flush st')
       = map name (flush st)
           ++ map trigger_value (filter is_trigger_line lines).
Proof.
  revert st; induction lines as [|l lines IH]; intros st;
    cbn [for_each filter].
  - exists st. now rewrite app_nil_r.
  - destruct (is_trigger_line l) eqn:Ht.
    + rewrite (step_trigger st l Ht). cbn [bind].
      destruct (IH {| transactions := flush st;
                      current := Some (new_transaction
                                         (snd (split_label_value l))) |})
        as (st' & -> & Hn).
      exists st'. split; [reflexivity|]. rewrite Hn.
      unfold flush at 1. cbn [current transactions map].
      rewrite map_app, <- app_assoc. reflexivity.
    + destruct (step_keeps_names st l Ht) as (st1 & -> & Hn1).
      cbn [bind]. destruct (IH st1) as (st' & -> & Hn).
      exists st'. split; [reflexivity|]. now rewrite Hn, Hn1.
Qed.

End ParserFacts.

(** C2. The parser returns one record for each line whose trimmed text
    starts with "Címzett neve" or "Megbízó neve", in the order of these
    lines, the name of a record being the value split off its line; such a
    line appends the open record, if there is one, to the output and opens
    a record with that name and five empty fields; and at the end of the
    input the open record is appended. *)
Theorem C2_one_record_per_trigger_line (U : Unicode) (text : str) :
  let triggers := filter is_trigger_line (splitlines text) in
  exists records,
    parse_statement_text text = Ok records
    /\ List.length records = List.length triggers
    /\ map name records = map trigger_value triggers
    /\ (forall st raw_line,
          is_trigger_line raw_line = true ->
          step st raw_line
          = Ok {| transactions :=
                    match current st with
                    | Some c => transactions st ++ [c]
                    | None => transactions st
                    end;
                  current :=
                    Some {| name := trigger_value raw_line; date := [];
                            amount := []; reference := []; note := [];
                            id := [] |} |})
    /\ (exists st,
          for_each step initial (splitlines text) = Ok st
          /\ records = match current st with
                       | Some c => transactions st ++ [c]
                       | None => transactions st
                       end).
Proof.
  intros triggers. unfold parse_statement_text, parse_lines.
  destruct (for_each_step_names (splitlines text) initial) as (st & Hst & Hn).
  rewrite Hst. cbn [bind]. exists (flush st).
  cbn [flush initial current transactions map app] in Hn.
  split; [reflexivity|]. split; [|split; [exact Hn|split]].
  - rewrite <- (length_map name), Hn, length_map. reflexivity.
  - intros st0 raw_line Ht. apply (step_trigger st0 raw_line Ht).
  - exists st. split; reflexivity.
Qed.

Lemma C2_one_record_per_trigger_line_witness :
  let text := u "Számlatörténet" ++ [LF]
              ++ u "  Címzett neve      ACME Ltd" ++ [LF]
              ++ u "  Terhelés összege  -1 500 HUF" ++ [CR; LF]
              ++ u "Megbízó neve   Kovács  János" ++ [LF] in
  exists records,
    @parse_statement_text Latin.tables text = Ok records
    /\ List.length records = 2
    /\ map name records = [u "ACME Ltd"; u "Kovács János"].
Proof.
  intros text.
  destruct (C2_one_record_per_trigger_line Latin.tables text)
    as (records & Hp & Hl & Hn & _).
  exists records. exact (conj Hp (conj Hl Hn)).
Defined.

(* ================================================================== *)
(** * The splitter *)
(* ================================================================== *)

Lemma dropwhile_starts_ok (s : str) : starts_ok (dropwhile isspace s) = true.
Proof.
  induction s as [|c s IH]; simpl; [reflexivity|].
  destruct (isspace c) eqn:Hc; [exact IH | simpl; now rewrite Hc].
Qed.

Lemma dropwhile_id (s : str) : starts_ok s = true -> dropwhile isspace s = s.
Proof.
  destruct s as [|c s]; simpl; [reflexivity|].
  now destruct (isspace c).
Qed.

(** A text that neither starts nor ends with whitespace is its own
    trimmed text. *)
Lemma strip_id (s : str) :
  starts_ok s = true -> starts_ok (rev s) = true -> strip s = s.
Proof.
  intros Hs He. unfold strip, lstrip_by, rstrip_by.
  rewrite (dropwhile_id _ Hs), (dropwhile_id _ He). apply rev_involutive.
Qed.

Lemma strip_starts_ok (s : str) : starts_ok (strip s) = true.
Proof.
  unfold strip, lstrip_by.
  pose proof (dropwhile_starts_ok s) as Hl.
  destruct (rstrip_by_split isspace (dropwhile isspace s)) as (t & Hs & _).
  destruct (rstrip_by isspace (dropwhile isspace s)) as [|c r]; [reflexivity|].
  rewrite Hs in Hl. exact Hl.
Qed.

Lemma strip_ends_ok (s : str) : starts_ok (rev (strip s)) = true.
Proof.
  unfold strip, rstrip_by. rewrite rev_involutive. apply dropwhile_starts_ok.
Qed.

Lemma strip_idempotent (s : str) : strip (strip s) = strip s.
Proof. apply strip_id; [apply strip_starts_ok | apply strip_ends_ok]. Qed.

Lemma starts_ok_snoc (x : str) (c : char) :
  starts_ok (x ++ [c])
  = match x with [] => negb (isspace c) | _ :: _ => starts_ok x end.
Proof. destruct x; reflexivity. Qed.

(** Within a run, the pieces are those of the text after the run. *)
Lemma split_gaps_in_gap (s : str) :
  split_gaps_from true s = split_gaps_from false (dropwhile isspace s).
Proof.
  induction s as [|c s IH]; [reflexivity|].
  cbn [split_gaps_from dropwhile]. destruct (isspace c) eqn:Hc; [exact IH|].
  cbn [split_gaps_from]. now rewrite Hc.
Qed.

(** The equations of the four functions on a text of two characters or
    more. *)
Lemma split_gaps_from_cc (c d : char) (s : str) :
  split_gaps_from false (c :: d :: s)
  = if isspace c && isspace d then [] :: split_gaps_from true (d :: s)
    else cons_head c (split_gaps_from false (d :: s)).
Proof. reflexivity. Qed.

Lemma has_gap_cc (c d : char) (s : str) :
  has_gap (c :: d :: s) = isspace c && isspace d || has_gap (d :: s).
Proof. reflexivity. Qed.

Lemma before_gap_cc (c d : char) (s : str) :
  before_gap (c :: d :: s)
  = if isspace c && isspace d then [] else c :: before_gap (d :: s).
Proof. reflexivity. Qed.

Lemma after_gap_cc (c d : char) (s : str) :
  after_gap (c :: d :: s)
  = if isspace c && isspace d then dropwhile isspace (d :: s)
    else after_gap (d :: s).
Proof. reflexivity. Qed.

(** The pieces of a text: the text before its first run and the pieces
    of the text after that run, or the text itself. *)
Lemma split_gaps_unfold (s : str) :
  split_gaps s
  = if has_gap s then before_gap s :: split_gaps (after_gap s) else [s].
Proof.
  unfold split_gaps. induction s as [|c s IH]; [reflexivity|].
  destruct s as [|d s'].
  - cbn. now rewrite andb_false_r.
  - rewrite split_gaps_from_cc, has_gap_cc, before_gap_cc, after_gap_cc.
    destruct (isspace c && isspace d) eqn:Hg; cbn [orb].
    + now rewrite split_gaps_in_gap.
    + rewrite IH. now destruct (has_gap (d :: s')).
Qed.

Lemma split_gaps_nonempty (s : str) : split_gaps s <> [].
Proof. rewrite split_gaps_unfold. now destruct (has_gap s). Qed.

Lemma before_gap_starts_ok (s : str) :
  starts_ok s = true -> starts_ok (before_gap s) = true.
Proof.
  destruct s as [|c [|d s']]; cbn; try tauto.
  now destruct (isspace c && isspace d).
Qed.

Lemma before_gap_ends_ok (s : str) :
  has_gap s = true -> starts_ok (rev (before_gap s)) = true.
Proof.
  induction s as [|c s IH]; [discriminate|].
  destruct s as [|d s']; [discriminate|].
  rewrite has_gap_cc, before_gap_cc.
  destruct (isspace c && isspace d) eqn:Hg; [reflexivity|].
  cbn [orb rev]. intros Hs. rewrite starts_ok_snoc.
  destruct (rev (before_gap (d :: s'))) as [|x r] eqn:Hr.
  - apply (f_equal (@rev char)) in Hr. rewrite rev_involutive in Hr.
    cbn [rev] in Hr.
    destruct s' as [|e s'']; [discriminate|].
    rewrite before_gap_cc in Hr.
    destruct (isspace d && isspace e) eqn:Hde; [|discriminate].
    apply andb_true_iff in Hde as [Hd _]. rewrite Hd, andb_true_r in Hg.
    now rewrite Hg.
  - now apply IH.
Qed.

(** The three parts are what their names say: a text with a run is the
    text before the run, which has no run, then two or more whitespace
    characters, then the text after, which starts with none. *)
Lemma gap_decomposition (s : str) :
  has_gap s = true ->
  exists gap,
    s = before_gap s ++ gap ++ after_gap s
    /\ forallb isspace gap = true
    /\ 2 <= List.length gap
    /\ has_gap (before_gap s) = false
    /\ starts_ok (after_gap s) = true.
Proof.
  induction s as [|c s IH]; [discriminate|].
  destruct s as [|d s']; [discriminate|].
  rewrite has_gap_cc, before_gap_cc, after_gap_cc.
  destruct (isspace c && isspace d) eqn:Hg.
  - intros _. apply andb_true_iff in Hg as [Hc Hd].
    destruct (dropwhile_split isspace s') as (t & Hs & Ht).
    exists (c :: d :: t). cbn [dropwhile]. rewrite Hd.
    split; [cbn [app]; now rewrite <- Hs|].
    split; [cbn [forallb]; now rewrite Hc, Hd|].
    split; [cbn [List.length]; lia|].
    split; [reflexivity | apply dropwhile_starts_ok].
  - cbn [orb]. intros Hs. destruct (IH Hs) as (gap & He & Hf & Hl & Hb & Ha).
    exists gap. split; [cbn [app]; now rewrite <- He|].
    repeat (split; [assumption|]). split; [|assumption].
    destruct (before_gap (d :: s')) as [|x r] eqn:Hbg; [reflexivity|].
    assert (x = d) as ->.
    { destruct s' as [|e s''].
      - now injection Hbg.
      - rewrite before_gap_cc in Hbg.
        destruct (isspace d && isspace e); [discriminate | now injection Hbg]. }
    rewrite has_gap_cc. now rewrite Hg, Hb.
Qed.

(** C6, as the program has it.  The splitter is a function of the trimmed
    line: the runs of whitespace that count are those inside the trimmed
    text, since the whitespace at the two ends of the line is removed
    first.  If the trimmed text has a run of two or more whitespace
    characters, the label is the text before the first run (it is already
    trimmed) and the value is the trimmed join, by single spaces, of the
    pieces after it; otherwise the label is the trimmed text and the value
    is empty. *)
Theorem C6_splitter_on_trimmed_line (line : str) :
  split_label_value line = split_label_value_spec (strip line)
  /\ (has_gap (strip line) = true ->
      split_label_value line
      = (before_gap (strip line),
         strip (join [SP] (split_gaps (after_gap (strip line))))))
  /\ (has_gap (strip line) = false ->
      split_label_value line = (strip line, [])).
Proof.
  assert (Ht : has_gap (strip line) = true ->
               split_label_value line
               = (before_gap (strip line),
                  strip (join [SP] (split_gaps (after_gap (strip line)))))).
  { intros Hg. unfold split_label_value.
    rewrite split_gaps_unfold, Hg.
    pose proof (split_gaps_nonempty (after_gap (strip line))) as Hne.
    destruct (split_gaps (after_gap (strip line))) as [|p ps];
      [contradiction | reflexivity]. }
  assert (Hf : has_gap (strip line) = false ->
               split_label_value line = (strip line, [])).
  { intros Hg. unfold split_label_value.
    now rewrite split_gaps_unfold, Hg. }
  split; [|split; assumption].
  unfold split_label_value_spec.
  destruct (has_gap (strip line)) eqn:Hg.
  - rewrite (Ht eq_refl). f_equal. symmetry. apply strip_id.
    + apply before_gap_starts_ok, strip_starts_ok.
    + now apply before_gap_ends_ok.
  - rewrite (Hf eq_refl). now rewrite strip_idempotent.
Qed.

Lemma C6_splitter_on_trimmed_line_witness :
  split_label_value (u "  Közlemény   Invoice 42    paid ")
  = (u "Közlemény", u "Invoice 42 paid")
  /\ split_label_value (u " Közlemény ") = (u "Közlemény", []).
Proof.
  split.
  - exact (proj1 (proj2 (C6_splitter_on_trimmed_line
                           (u "  Közlemény   Invoice 42    paid "))) eq_refl).
  - exact (proj2 (proj2 (C6_splitter_on_trimmed_line (u " Közlemény ")))
             eq_refl).
Defined.

(** The claim C6 fails on an indented line: the first run of whitespace
    of "  Címzett neve   ACME Ltd" is at its start, with nothing before it,
    but the label that is returned is "Címzett neve". *)
Lemma C6_counterexample :
  let line := u "  Címzett neve   ACME Ltd" in
  has_gap line = true
  /\ before_gap line = []
  /\ split_label_value_spec line = ([], u "Címzett neve ACME Ltd")
  /\ split_label_value line = (u "Címzett neve", u "ACME Ltd")
  /\ split_label_value line <> split_label_value_spec line.
Proof.
  repeat split; try (vm_compute; reflexivity).
  vm_compute. discriminate.
Qed.

(* ================================================================== *)
(** * A statement block, from the text to the row *)
(* ================================================================== *)

(** ** Lines of the form label, spaces, value *)

Lemma splitlines_from_line (l rest : str) :
  forallb (fun c => negb (islinebreak c)) l = true ->
  splitlines_from false (l ++ LF :: rest) = l :: splitlines_from false rest.
Proof.
  induction l as [|c l IH]; cbn [forallb app]; intros H.
  - reflexivity.
  - apply andb_true_iff in H as [Hc Hl]. cbn [splitlines_from andb].
    apply negb_true_iff in Hc. rewrite Hc, (IH Hl). reflexivity.
Qed.

Lemma splitlines_from_last (l : str) :
  l <> [] ->
  forallb (fun c => negb (islinebreak c)) l = true ->
  splitlines_from false l = [l].
Proof.
  induction l as [|c l IH]; [contradiction|]. intros _ H.
  cbn [forallb] in H. apply andb_true_iff in H as [Hc Hl].
  cbn [splitlines_from andb]. apply negb_true_iff in Hc. rewrite Hc.
  destruct l as [|d l']; [reflexivity|].
  rewrite IH by (assumption || discriminate). reflexivity.
Qed.

Lemma forallb_repeat {A} (f : A -> bool) (x : A) (n : nat) :
  f x = true -> forallb f (repeat x n) = true.
Proof. intros H. induction n; simpl; [reflexivity | now rewrite H]. Qed.

Lemma existsb_repeat {A} (f : A -> bool) (x : A) (n : nat) :
  f x = false -> existsb f (repeat x n) = false.
Proof. intros H. induction n; simpl; [reflexivity | now rewrite H]. Qed.

(** A text in which the first character of [p] does not occur does not
    contain [p]. *)
Lemma contains_absent (c : char) (p s : str) :
  existsb (eqc c) s = false -> contains (c :: p) s = false.
Proof.
  induction s as [|d s IH]; cbn [existsb contains startswith]; intros H.
  - reflexivity.
  - apply orb_false_iff in H as [Hd Hs]. now rewrite Hd, (IH Hs).
Qed.

Lemma split_gaps_in_gap_repeat (m : nat) (v : str) :
  split_gaps_from true (repeat SP m ++ v) = split_gaps_from true v.
Proof. induction m as [|m IH]; [reflexivity | exact IH]. Qed.

(** The pieces of a label without a run that does not end with
    whitespace, followed by two or more spaces and by a value. *)
Lemma split_gaps_label (l v : str) (m : nat) :
  has_gap (l ++ [SP]) = false ->
  split_gaps (l ++ repeat SP (S (S m)) ++ v) = l :: split_gaps_from true v.
Proof.
  unfold split_gaps. induction l as [|c l IH]; intros H.
  - cbn [app repeat]. rewrite split_gaps_from_cc. cbn [isspace andb].
    change (split_gaps_from true (SP :: repeat SP m ++ v))
      with (split_gaps_from true (repeat SP m ++ v)).
    now rewrite split_gaps_in_gap_repeat.
  - destruct l as [|d l'].
    + cbn [app] in *. rewrite has_gap_cc in H.
      apply orb_false_iff in H as [Hc _].
      change (isspace SP) with true in Hc. rewrite andb_true_r in Hc.
      change (c :: repeat SP (S (S m)) ++ v)
        with (c :: SP :: (repeat SP (S m) ++ v)).
      rewrite split_gaps_from_cc, Hc. cbn [andb].
      change (SP :: repeat SP (S m) ++ v) with (repeat SP (S (S m)) ++ v).
      now rewrite (IH eq_refl).
    + change ((c :: d :: l') ++ [SP]) with (c :: d :: (l' ++ [SP])) in H.
      rewrite has_gap_cc in H. apply orb_false_iff in H as [Hcd Hl].
      change ((c :: d :: l') ++ repeat SP (S (S m)) ++ v)
        with (c :: d :: (l' ++ repeat SP (S (S m)) ++ v)).
      rewrite split_gaps_from_cc, Hcd.
      change (d :: l' ++ repeat SP (S (S m)) ++ v)
        with ((d :: l') ++ repeat SP (S (S m)) ++ v).
      now rewrite (IH Hl).
Qed.

(** Such a line is its own trimmed text, and is split into its label and
    the trimmed join of the pieces of its value. *)
Lemma strip_labelled_line (l v : str) (n : nat) :
  l <> [] -> v <> [] ->
  starts_ok l = true -> starts_ok (rev v) = true ->
  strip (l ++ repeat SP n ++ v) = l ++ repeat SP n ++ v.
Proof.
  intros Hl Hv Hsl Hsv. apply strip_id.
  - destruct l; [contradiction | exact Hsl].
  - rewrite !rev_app_distr.
    destruct (rev v) as [|c r] eqn:Hr; [|exact Hsv].
    apply (f_equal (@rev char)) in Hr. rewrite rev_involutive in Hr.
    contradiction.
Qed.

Lemma split_labelled_line (l v : str) (n : nat) :
  2 <= n ->
  l <> [] -> v <> [] ->
  starts_ok l = true -> starts_ok (rev v) = true ->
  has_gap (l ++ [SP]) = false ->
  split_label_value (l ++ repeat SP n ++ v)
  = (l, strip (join [SP] (tl (l :: split_gaps_from true v)))).
Proof.
  intros Hn Hl Hv Hsl Hsv Hg. unfold split_label_value.
  rewrite strip_labelled_line by assumption.
  destruct n as [|[|m]]; [lia | lia |].
  rewrite (split_gaps_label _ _ _ Hg).
  pose proof (split_gaps_nonempty (dropwhile isspace v)) as Hne.
  unfold split_gaps in Hne. rewrite <- split_gaps_in_gap in Hne.
  destruct (split_gaps_from true v) as [|p ps]; [contradiction|].
  reflexivity.
Qed.

(** ** Patterns that are not found *)

Section NotFound.

Context {U : Unicode}.

Lemma matches_Lit_startswith (l : str) k (prev : option char) (s : str) :
  matches (Lit l) k prev s = true -> startswith l s = true.
Proof.
  cbn [matches]. rewrite <- (after_lit_startswith l prev s).
  now destruct (after_lit l prev s).
Qed.

Lemma matches_alts_startswith (x : str) (l : list str) k prev (s : str) :
  matches (alts x l) k prev s = true ->
  existsb (fun kw => startswith kw s) (x :: l) = true.
Proof.
  revert x; induction l as [|y l IH]; intros x; cbn [alts existsb].
  - intros H. apply matches_Lit_startswith in H. now rewrite H.
  - cbn [matches]. intros H. apply orb_true_iff in H as [H|H].
    + apply matches_Lit_startswith in H. now rewrite H.
    + apply IH in H. cbn [existsb] in H. rewrite H. apply orb_true_r.
Qed.

Lemma existsb_impl {A} (f g : A -> bool) (l : list A) :
  (forall a, f a = true -> g a = true) ->
  existsb f l = true -> existsb g l = true.
Proof.
  intros Hfg. induction l as [|a l IH]; cbn [existsb]; [easy|].
  intros H. apply orb_true_iff in H as [H|H].
  - now rewrite (Hfg _ H).
  - rewrite (IH H). apply orb_true_r.
Qed.

(** A word-bounded alternation of keywords is found only in a text that
    contains one of the keywords. *)
Lemma search_word_alts (x : str) (l : list str) (s : str) :
  existsb (fun kw => contains kw s) (x :: l) = false ->
  search (Seq WordB (Seq (alts x l) WordB)) s = false.
Proof.
  intros Hn. apply not_true_is_false. intros Hs.
  apply eq_true_false_abs in Hn; [exact Hn|]. clear Hn.
  unfold search in Hs. revert Hs. generalize (@None char) as prev.
  induction s as [|c s IH]; intros prev; cbn [search_from matches];
    intros H.
  - rewrite orb_false_r in H. apply andb_true_iff in H as [_ H].
    apply matches_alts_startswith in H.
    revert H. apply existsb_impl. intros a. apply startswith_contains.
  - apply orb_true_iff in H as [H|H].
    + apply andb_true_iff in H as [_ H].
      apply matches_alts_startswith in H.
      revert H. apply existsb_impl. intros a. apply startswith_contains.
    + apply IH in H. revert H. apply existsb_impl.
      intros a Ha. cbn [contains]. rewrite Ha. apply orb_true_r.
Qed.

(** A pattern that starts with a literal is found only in a text that
    contains the literal. *)
Lemma search_from_Seq_Lit (l : str) (r : regex) prev (s : str) :
  contains l s = false -> search_from (Seq (Lit l) r) prev s = false.
Proof.
  intros Hn. apply not_true_is_false. intros Hs.
  apply eq_true_false_abs in Hn; [exact Hn|]. clear Hn.
  revert prev Hs. induction s as [|c s IH]; intros prev;
    cbn [search_from]; intros H.
  - rewrite orb_false_r in H. cbn [matches] in H.
    apply startswith_contains.
    rewrite <- (after_lit_startswith l prev []).
    now destruct (after_lit l prev []) as [[p q]|].
  - apply orb_true_iff in H as [H|H].
    + cbn [matches] in H. apply startswith_contains.
      rewrite <- (after_lit_startswith l prev (c :: s)).
      now destruct (after_lit l prev (c :: s)) as [[p q]|].
    + apply IH in H. cbn [contains]. rewrite H. apply orb_true_r.
Qed.

(** The description "Invoice 42" with the amount "10000.00" falls
    through every keyword rule and is an [Income] by its sign. *)
Lemma classify_invoice :
  lower (u "Invoice 42") = u "invoice 42" ->
  _classify_transaction (u "Invoice 42") (u "10000.00") = Ok Income.
Proof.
  intros Hl. unfold _classify_transaction. rewrite Hl.
  unfold re_refund, re_transfer, re_dividend, re_loss, re_salary,
    re_expense, re_interest, re_gain, re_buy, re_sell.
  rewrite !search_alts.
  rewrite !search_word_alts by (vm_compute; reflexivity).
  unfold search.
  rewrite search_from_Alt, search_from_Lit, search_from_Seq_Lit
    by (vm_compute; reflexivity).
  fold (search (alts (u "capital gain") [u "nyereség"]) (u "invoice 42")).
  rewrite search_alts.
  reflexivity.
Qed.

End NotFound.

(** ** The block of the scenario *)

Section Scenario.

Context {U : Unicode}.
Variables n1 n2 n3 n4 : nat.
Hypotheses (H1 : 2 <= n1) (H2 : 2 <= n2) (H3 : 2 <= n3) (H4 : 2 <= n4).

Lemma scenario_splitlines :
  splitlines (scenario n1 n2 n3 n4) = scenario_lines n1 n2 n3 n4.
Proof.
  unfold splitlines, scenario, scenario_lines. cbn [join app].
  repeat (rewrite splitlines_from_line
            by (rewrite !forallb_app, forallb_repeat by reflexivity;
                reflexivity)).
  rewrite splitlines_from_last; [reflexivity | now destruct n4 |].
  rewrite !forallb_app, forallb_repeat by reflexivity. reflexivity.
Qed.

(** No amount label occurs in a line without the letters J and T. *)
Lemma not_amount (l v : str) (n : nat) :
  existsb (eqc 74%N) (l ++ v) = false ->
  existsb (eqc 84%N) (l ++ v) = false ->
  is_amount (l ++ repeat SP n ++ v) = false.
Proof.
  rewrite !existsb_app. intros HJ HT.
  apply orb_false_iff in HJ as [HJl HJv].
  apply orb_false_iff in HT as [HTl HTv].
  unfold is_amount, L_jovairas, L_terheles.
  rewrite !contains_absent; [reflexivity | |];
    rewrite !existsb_app, existsb_repeat by reflexivity;
    [now rewrite HTl, HTv | now rewrite HJl, HJv].
Qed.

Ltac labelled :=
  first [ rewrite strip_labelled_line by (discriminate || reflexivity)
        | rewrite split_labelled_line
            by (assumption || discriminate || reflexivity) ].

Lemma scenario_parse :
  parse_statement_text (scenario n1 n2 n3 n4) = Ok [scenario_record].
Proof.
  unfold parse_statement_text, parse_lines.
  rewrite scenario_splitlines. unfold scenario_lines.
  cbn [for_each].
  (* the name *)
  rewrite step_trigger
    by (labelled; unfold is_trigger; now rewrite startswith_app).
  labelled. cbn [bind snd].
  (* the value date *)
  rewrite (@step_open _ _ (new_transaction (u "ACME Ltd")))
    by (reflexivity || (labelled; reflexivity)).
  cbv zeta. labelled.
  rewrite not_amount by reflexivity.
  rewrite startswith_app. labelled. cbn [bind snd].
  (* the amount *)
  match goal with
  | |- context [step ?st _] =>
      rewrite (@step_open _ st (set_date (u "2024-03-01")
                                  (new_transaction (u "ACME Ltd"))))
        by (reflexivity || (labelled; reflexivity))
  end.
  cbv zeta. labelled.
  replace (is_amount (L_jovairas ++ repeat SP n3 ++ u "10 000 HUF"))
    with true
    by (symmetry; unfold is_amount;
        now rewrite (startswith_contains _ _ (startswith_app _ _))).
  labelled. cbn [snd].
  replace (amount_of_value _) with (Ok (u "10000.00"))
    by (vm_compute; reflexivity).
  cbn [bind].
  (* the reference *)
  match goal with
  | |- context [step ?st _] =>
      rewrite (@step_open _ st
                 (set_amount (u "10000.00")
                    (set_date (u "2024-03-01")
                       (new_transaction (u "ACME Ltd")))))
        by (reflexivity || (labelled; reflexivity))
  end.
  cbv zeta. labelled.
  rewrite not_amount by reflexivity.
  replace (startswith L_erteknap _) with false by reflexivity.
  rewrite startswith_app. labelled. cbn [bind snd].
  reflexivity.
Qed.

End Scenario.

(** C1. The text of one block with the lines "Címzett neve", "ACME
    Ltd"; "Értéknap", "2024.03.01."; "Jóváírás összege", "10 000 HUF" and
    "Közlemény", "Invoice 42", each label followed by two or more spaces and
    by its value, is converted into exactly one row, with the date
    "2024-03-01", the amount "10000.00", the type "Income" and the
    description "ACME Ltd - Invoice 42" (for any Unicode tables whose lower
    case of "Invoice 42" is "invoice 42"). *)
Theorem C1_end_to_end (U : Unicode) (n1 n2 n3 n4 : nat) :
  2 <= n1 -> 2 <= n2 -> 2 <= n3 -> 2 <= n4 ->
  lower (u "Invoice 42") = u "invoice 42" ->
  convert_pdf_to_csv (scenario n1 n2 n3 n4)
  = Ok [ {| row_date := u "2024-03-01";
            row_amount := u "10000.00";
            row_type := u "Income";
            row_description := u "ACME Ltd - Invoice 42" |} ].
Proof.
  intros H1 H2 H3 H4 Hl. unfold convert_pdf_to_csv.
  rewrite scenario_parse by assumption.
  cbn [bind for_each]. unfold write_row, output_row.
  change (strip (or_else (reference scenario_record) (note scenario_record)))
    with (u "Invoice 42").
  cbn [amount scenario_record]. rewrite (classify_invoice Hl).
  reflexivity.
Qed.

Lemma C1_end_to_end_witness :
  @convert_pdf_to_csv Latin.tables
    (u "Címzett neve      ACME Ltd" ++ [LF]
     ++ u "Értéknap          2024.03.01." ++ [LF]
     ++ u "Jóváírás összege  10 000 HUF" ++ [LF]
     ++ u "Közlemény         Invoice 42")
  = Ok [ {| row_date := u "2024-03-01";
            row_amount := u "10000.00";
            row_type := u "Income";
            row_description := u "ACME Ltd - Invoice 42" |} ].
Proof.
  apply (@C1_end_to_end Latin.tables 6 10 2 9); try lia. reflexivity.
Defined.

(* ================================================================== *)
(** * Further properties of the parser *)
(* ================================================================== *)

Section ParserStructure.

Context {U : Unicode}.

Lemma for_each_app {A S} (f : S -> A -> result S) (st : S) (a b : list A) :
  for_each f st (a ++ b) = (st' <- for_each f st a ;; for_each f st' b).
Proof.
  revert st; induction a as [|x a IH]; intros st; cbn [app for_each bind].
  - reflexivity.
  - destruct (f st x) as [st1|e]; cbn [bind]; [apply IH | reflexivity].
Qed.

(** The loop reads a line in the same way whatever records have been
    finalized before. *)
Lemma step_frame (p : list transaction) (st : state) (raw_line : str) :
  step (add_prefix p st) raw_line
  = (st' <- step st raw_line ;; Ok (add_prefix p st')).
Proof.
  destruct (is_trigger (strip raw_line)) eqn:Ht.
  - rewrite !step_trigger by assumption. cbn [bind]. unfold add_prefix, flush.
    cbn [current transactions].
    destruct (current st); now rewrite ?app_assoc.
  - destruct (current st) as [cur|] eqn:Hc.
    + rewrite (@step_open _ (add_prefix p st) cur) by assumption.
      rewrite (step_open _ _ Hc Ht). cbv zeta.
      destruct (amount_of_value_ok (snd (split_label_value raw_line)))
        as [a ->].
      cbn [bind].
      repeat match goal with
      | |- context [if ?b then _ else _] => destruct b
      end; reflexivity.
    + rewrite !step_closed by assumption. reflexivity.
Qed.

Lemma for_each_step_frame (p : list transaction) (lines : list str)
      (st : state) :
  for_each step (add_prefix p st) lines
  = (st' <- for_each step st lines ;; Ok (add_prefix p st')).
Proof.
  revert st; induction lines as [|l lines IH]; intros st; cbn [for_each].
  - reflexivity.
  - rewrite step_frame. destruct (step st l) as [st1|e]; cbn [bind];
      [apply IH | reflexivity].
Qed.

Lemma add_prefix_own (st : state) :
  st = add_prefix (transactions st)
         {| transactions := []; current := current st |}.
Proof. destruct st as [ts c]. unfold add_prefix. cbn. now rewrite app_nil_r. Qed.

Lemma flush_add_prefix (p : list transaction) (st : state) :
  flush (add_prefix p st) = p ++ flush st.
Proof.
  unfold flush, add_prefix. cbn [current transactions].
  destruct (current st); now rewrite ?app_assoc.
Qed.

(** A line that is neither a trigger line nor the line of a field changes
    nothing, whether a record is open or not. *)
Lemma step_irrelevant (st : state) (raw_line : str) :
  is_relevant raw_line = false -> step st raw_line = Ok st.
Proof.
  unfold is_relevant, is_trigger_line, field_of. intros H.
  apply orb_false_iff in H as [Ht Hf].
  destruct (current st) as [cur|] eqn:Hc.
  - rewrite (step_open _ _ Hc Ht). cbv zeta.
    destruct (is_amount (strip raw_line)); [discriminate|].
    destruct (startswith L_erteknap (strip raw_line)); [discriminate|].
    destruct (startswith L_kozlemeny (strip raw_line)); [discriminate|].
    destruct (startswith L_megjegyzes (strip raw_line)); [discriminate|].
    destruct (startswith L_partner (strip raw_line)); [discriminate|].
    reflexivity.
  - now apply step_closed.
Qed.

End ParserStructure.

(** X1. Records that have been finalized are never changed or removed by
    the lines that follow: the finalized records after any run of the loop
    start with the finalized records before it. *)
Theorem finalized_records_are_kept
  (U : Unicode) (lines : list str) (st st' : state) :
  for_each step st lines = Ok st' ->
  exists more, transactions st' = transactions st ++ more.
Proof.
  rewrite (add_prefix_own st) at 1. rewrite for_each_step_frame.
  destruct (for_each step _ lines) as [st1|e]; cbn [bind]; [|discriminate].
  intros [= <-]. now exists (transactions st1).
Qed.

Lemma finalized_records_are_kept_witness :
  let r := new_transaction (u "ACME Ltd") in
  let st := {| transactions := [r]; current := None |} in
  exists st' more,
    @for_each _ _ (@step Latin.tables) st
      [u "Megbízó neve   Kovács János"; u "Címzett neve   Posta"] = Ok st'
    /\ transactions st' = [r] ++ more.
Proof.
  intros r st. eexists. 
  destruct (@finalized_records_are_kept Latin.tables
              [u "Megbízó neve   Kovács János"; u "Címzett neve   Posta"]
              st _ eq_refl) as [more Hm].
  exists more. split; [reflexivity | exact Hm].
Defined.

(** X2. Everything before the first trigger line is dropped: lines none
    of which starts with a counterparty-name label, put in front of a
    statement, do not change its records. *)
Theorem lines_before_first_trigger_are_dropped
  (U : Unicode) (pre rest : list str) :
  forallb (fun l => negb (is_trigger_line l)) pre = true ->
  parse_lines (pre ++ rest) = parse_lines rest.
Proof.
  intros Hpre. unfold parse_lines. rewrite for_each_app.
  assert (Hi : for_each step initial pre = Ok initial).
  { induction pre as [|l pre IH]; [reflexivity|].
    cbn [forallb] in Hpre. apply andb_true_iff in Hpre as [Hl Hp].
    apply negb_true_iff in Hl. cbn [for_each].
    rewrite step_closed by (reflexivity || exact Hl). cbn [bind]. now apply IH. }
  now rewrite Hi.
Qed.

Lemma lines_before_first_trigger_are_dropped_witness :
  @parse_lines Latin.tables
    ([u "Értéknap   2024.03.01."; u "Közlemény   lost"]
     ++ [u "Címzett neve   ACME Ltd"])
  = @parse_lines Latin.tables [u "Címzett neve   ACME Ltd"].
Proof.
  apply (@lines_before_first_trigger_are_dropped Latin.tables). reflexivity.
Defined.

(** X3. The blank lines and the lines that carry no recognized label can
    be deleted from a statement without changing its records. *)
Theorem irrelevant_lines_can_be_deleted (U : Unicode) (lines : list str) :
  parse_lines (filter is_relevant lines) = parse_lines lines.
Proof.
  unfold parse_lines. f_equal. generalize initial as st.
  induction lines as [|l lines IH]; intros st; cbn [filter for_each].
  - reflexivity.
  - destruct (is_relevant l) eqn:Hr; cbn [for_each].
    + destruct (step st l) as [st1|e]; cbn [bind]; [apply IH | reflexivity].
    + rewrite (step_irrelevant st l Hr). cbn [bind]. apply IH.
Qed.

(** X4. The records of a statement are those of its blocks, one after
    the other: if the second part of the lines starts with a trigger line,
    the records of the whole are the records of the first part followed by
    the records of the second. *)
Theorem records_of_blocks_concatenate
  (U : Unicode) (lines1 lines2 : list str) (t : str) :
  is_trigger_line t = true ->
  exists r1 r2,
    parse_lines lines1 = Ok r1
    /\ parse_lines (t :: lines2) = Ok r2
    /\ parse_lines (lines1 ++ t :: lines2) = Ok (r1 ++ r2).
Proof.
  intros Ht. unfold parse_lines. rewrite for_each_app.
  destruct (for_each_step_ok lines1 initial) as [st1 Hst1]. rewrite Hst1.
  cbn [bind for_each]. rewrite !(step_trigger _ t Ht). cbn [bind].
  assert (E : {| transactions := flush st1;
                 current :=
                   Some (new_transaction (snd (split_label_value t))) |}
              = add_prefix (flush st1)
                  {| transactions := flush initial;
                     current :=
                       Some (new_transaction (snd (split_label_value t))) |}).
  { unfold add_prefix. cbn. now rewrite app_nil_r. }
  rewrite E.
  rewrite for_each_step_frame.
  destruct (for_each_step_ok lines2
              {| transactions := flush initial;
                 current :=
                   Some (new_transaction (snd (split_label_value t))) |})
    as [st2 Hst2].
  rewrite Hst2. cbn [bind]. exists (flush st1), (flush st2).
  now rewrite flush_add_prefix.
Qed.

Lemma records_of_blocks_concatenate_witness :
  exists r1 r2,
    @parse_lines Latin.tables
      [u "Címzett neve   ACME Ltd"; u "Közlemény   Invoice 42"] = Ok r1
    /\ @parse_lines Latin.tables
         [u "Megbízó neve   Kovács János"; u "Értéknap   2024.03.02."]
       = Ok r2
    /\ @parse_lines Latin.tables
         ([u "Címzett neve   ACME Ltd"; u "Közlemény   Invoice 42"]
          ++ [u "Megbízó neve   Kovács János"; u "Értéknap   2024.03.02."])
       = Ok (r1 ++ r2).
Proof.
  apply (@records_of_blocks_concatenate Latin.tables). reflexivity.
Defined.

(** ** Lines of one record *)

Section FieldLines.

Context {U : Unicode}.

Lemma step_assign (st : state) (cur : transaction) (raw_line : str) :
  current st = Some cur ->
  is_trigger_line raw_line = false ->
  step st raw_line = (c <- assign raw_line cur ;; Ok (with_current st c)).
Proof.
  unfold is_trigger_line. intros Hc Ht.
  rewrite (step_open _ _ Hc Ht). cbv zeta. unfold assign, field_of.
  destruct (amount_of_value_ok (snd (split_label_value raw_line))) as [a ->].
  cbn [bind].
  repeat match goal with
  | |- context [if ?b then _ else _] => destruct b; try reflexivity
  end.
  cbn [bind]. now rewrite (with_current_same _ Hc).
Qed.

Lemma assign_ok (raw_line : str) (cur : transaction) :
  exists c, assign raw_line cur = Ok c.
Proof.
  unfold assign.
  destruct (amount_of_value_ok (snd (split_label_value raw_line))) as [a ->].
  destruct (field_of (strip raw_line)) as [[]|]; cbn [bind]; eauto.
Qed.

Lemma step_step (st : state) (cur : transaction) (l1 l2 : str) :
  current st = Some cur ->
  is_trigger_line l1 = false ->
  is_trigger_line l2 = false ->
  for_each step st [l1; l2]
  = (c1 <- assign l1 cur ;; c2 <- assign l2 c1 ;; Ok (with_current st c2)).
Proof.
  intros Hc H1 H2. cbn [for_each]. rewrite (step_assign _ _ Hc H1).
  destruct (assign_ok l1 cur) as [c1 ->]. cbn [bind].
  rewrite (@step_assign (with_current st c1) c1) by (reflexivity || assumption).
  destruct (assign_ok l2 c1) as [c2 ->]. reflexivity.
Qed.

End FieldLines.

(** X5. Of two lines of the same field, read one after the other while a
    record is open, the second decides: the first one can be left out. *)
Theorem last_line_of_a_field_wins
  (U : Unicode) (st : state) (cur : transaction) (l1 l2 : str) :
  current st = Some cur ->
  is_trigger_line l1 = false ->
  is_trigger_line l2 = false ->
  field_of (strip l1) = field_of (strip l2) ->
  for_each step st [l1; l2] = for_each step st [l2].
Proof.
  intros Hc H1 H2 Hf. rewrite (step_step _ _ _ Hc H1 H2).
  cbn [for_each]. rewrite (step_assign _ _ Hc H2).
  unfold assign. rewrite Hf.
  destruct (amount_of_value_ok (snd (split_label_value l1))) as [a1 ->].
  destruct (amount_of_value_ok (snd (split_label_value l2))) as [a2 ->].
  destruct (field_of (strip l2)) as [[]|]; reflexivity.
Qed.

Lemma last_line_of_a_field_wins_witness :
  let cur := new_transaction (u "ACME Ltd") in
  let st := {| transactions := []; current := Some cur |} in
  @for_each _ _ (@step Latin.tables) st
    [u "Terhelés összege   -100 HUF"; u "Jóváírás összege   250,50 HUF"]
  = @for_each _ _ (@step Latin.tables) st [u "Jóváírás összege   250,50 HUF"].
Proof.
  intros cur st.
  apply (@last_line_of_a_field_wins Latin.tables st cur
           (u "Terhelés összege   -100 HUF")
           (u "Jóváírás összege   250,50 HUF"));
    vm_compute; reflexivity.
Defined.

(** X6. The lines of one record can come in any order: two lines of
    different fields (or of which one carries no label), read while a
    record is open, give the same state in either order. *)
Theorem lines_of_different_fields_commute
  (U : Unicode) (st : state) (cur : transaction) (l1 l2 : str) :
  current st = Some cur ->
  is_trigger_line l1 = false ->
  is_trigger_line l2 = false ->
  field_of (strip l1) <> field_of (strip l2) ->
  for_each step st [l1; l2] = for_each step st [l2; l1].
Proof.
  intros Hc H1 H2 Hf.
  rewrite (step_step _ _ _ Hc H1 H2), (step_step _ _ _ Hc H2 H1).
  unfold assign.
  destruct (amount_of_value_ok (snd (split_label_value l1))) as [a1 ->].
  destruct (amount_of_value_ok (snd (split_label_value l2))) as [a2 ->].
  destruct (field_of (strip l1)) as [[]|], (field_of (strip l2)) as [[]|];
    (reflexivity || now contradiction Hf).
Qed.

Lemma lines_of_different_fields_commute_witness :
  let cur := new_transaction (u "ACME Ltd") in
  let st := {| transactions := []; current := Some cur |} in
  @for_each _ _ (@step Latin.tables) st
    [u "Közlemény   Invoice 42"; u "Értéknap   2024.03.01."]
  = @for_each _ _ (@step Latin.tables) st
      [u "Értéknap   2024.03.01."; u "Közlemény   Invoice 42"].
Proof.
  intros cur st.
  apply (@lines_of_different_fields_commute Latin.tables st cur
           (u "Közlemény   Invoice 42") (u "Értéknap   2024.03.01."));
    vm_compute; (reflexivity || discriminate).
Defined.

(* ================================================================== *)
(** * Further properties of the splitter *)
(* ================================================================== *)

Lemma split_label_value_gap (line : str) :
  has_gap (strip line) = true ->
  split_label_value line
  = (before_gap (strip line),
     strip (join [SP] (split_gaps (after_gap (strip line))))).
Proof.
  intros Hg. unfold split_label_value. rewrite split_gaps_unfold, Hg.
  pose proof (split_gaps_nonempty (after_gap (strip line))) as Hne.
  destruct (split_gaps (after_gap (strip line))) as [|p ps];
    [contradiction | reflexivity].
Qed.

Lemma split_label_value_no_gap (line : str) :
  has_gap (strip line) = false -> split_label_value line = (strip line, []).
Proof.
  intros Hg. unfold split_label_value. now rewrite split_gaps_unfold, Hg.
Qed.

Lemma starts_ok_rev_app (a b : str) :
  b <> [] -> starts_ok (rev (a ++ b)) = starts_ok (rev b).
Proof.
  intros Hb. rewrite rev_app_distr.
  destruct (rev b) as [|c r] eqn:Hr; [|reflexivity].
  apply (f_equal (@rev char)) in Hr. rewrite rev_involutive in Hr.
  contradiction.
Qed.

(** No run arises where a text that does not end with whitespace, a
    single space and a text that does not start with whitespace meet. *)
Lemma has_gap_joined (b j : str) :
  has_gap b = false -> starts_ok (rev b) = true ->
  has_gap j = false -> starts_ok j = true ->
  has_gap (b ++ SP :: j) = false.
Proof.
  intros Hb He Hj Hs. induction b as [|c b IH].
  - cbn [app]. destruct j as [|d j']; [reflexivity|].
    rewrite has_gap_cc, Hj. cbn [starts_ok] in Hs.
    apply negb_true_iff in Hs. now rewrite Hs, andb_false_r.
  - destruct b as [|d b'].
    + cbn [app]. rewrite has_gap_cc.
      cbn [rev app starts_ok] in He. apply negb_true_iff in He.
      rewrite He. cbn [andb orb]. apply (IH eq_refl eq_refl).
    + change ((c :: d :: b') ++ SP :: j) with (c :: d :: (b' ++ SP :: j)).
      rewrite has_gap_cc. rewrite has_gap_cc in Hb.
      apply orb_false_iff in Hb as [Hcd Hb]. rewrite Hcd. cbn [orb].
      apply IH; [exact Hb|].
      change (c :: d :: b') with ([c] ++ d :: b') in He.
      rewrite starts_ok_rev_app in He by discriminate. exact He.
Qed.

Lemma after_gap_shorter (s : str) :
  has_gap s = true -> List.length (after_gap s) < List.length s.
Proof.
  intros Hg. destruct (gap_decomposition s Hg) as (gap & Hs & _ & Hl & _).
  rewrite Hs at 2. rewrite !length_app. lia.
Qed.

(** The pieces of a text without whitespace at its ends, joined by single
    spaces, make a clean text. *)
Lemma join_split_gaps_clean (n : nat) (a : str) :
  List.length a <= n ->
  a <> [] -> starts_ok a = true -> starts_ok (rev a) = true ->
  let j := join [SP] (split_gaps a) in
  j <> [] /\ clean j = true.
Proof.
  revert a. induction n as [|n IH]; intros a Hn Hne Hs He.
  - destruct a; [contradiction | cbn in Hn; lia].
  - cbv zeta. rewrite split_gaps_unfold.
    destruct (has_gap a) eqn:Hg.
    + destruct (gap_decomposition a Hg) as (gap & Ha & Hsp & Hl & Hb & Hsa).
      assert (Hane : after_gap a <> []).
      { intros E. rewrite E, app_nil_r in Ha. rewrite Ha in He.
        rewrite starts_ok_rev_app in He
          by (destruct gap; [cbn in Hl; lia | discriminate]).
        destruct (rev gap) as [|c r] eqn:Hr; [|].
        - apply (f_equal (@rev char)) in Hr. rewrite rev_involutive in Hr.
          rewrite Hr in Hl. cbn in Hl. lia.
        - cbn [starts_ok] in He. apply negb_true_iff in He.
          assert (Hin : In c gap) by (apply in_rev; rewrite Hr; now left).
          rewrite forallb_forall in Hsp. rewrite (Hsp c Hin) in He.
          discriminate. }
      assert (Hea : starts_ok (rev (after_gap a)) = true).
      { rewrite Ha in He. rewrite app_assoc in He.
        now rewrite starts_ok_rev_app in He. }
      pose proof (after_gap_shorter a Hg) as Hlt.
      destruct (IH (after_gap a)) as (Hj & Hc); try assumption; [lia|].
      pose proof (split_gaps_nonempty (after_gap a)) as Hpn.
      destruct (split_gaps (after_gap a)) as [|p ps] eqn:Hp; [contradiction|].
      change (join [SP] (before_gap a :: p :: ps))
        with (before_gap a ++ SP :: join [SP] (p :: ps)).
      unfold clean in Hc.
      apply andb_true_iff in Hc as [Hc Hc3].
      apply andb_true_iff in Hc as [Hc1 Hc2].
      apply negb_true_iff in Hc3.
      assert (Hbne : before_gap a <> []).
      { destruct a as [|c [|d a']]; [contradiction | discriminate |].
        rewrite before_gap_cc. cbn [starts_ok] in Hs.
        apply negb_true_iff in Hs. now rewrite Hs. }
      split; [now destruct (before_gap a)|].
      unfold clean. apply andb_true_iff. split; [apply andb_true_iff; split|].
      * destruct (before_gap a) as [|c r] eqn:Hbg; [contradiction|].
        rewrite <- Hbg. cbn [app]. 
        pose proof (before_gap_starts_ok a Hs) as Hbs.
        rewrite Hbg in *. exact Hbs.
      * rewrite starts_ok_rev_app by discriminate.
        change (SP :: join [SP] (p :: ps))
          with ([SP] ++ join [SP] (p :: ps)).
        now rewrite starts_ok_rev_app.
      * apply negb_true_iff. apply has_gap_joined; try assumption.
        now apply before_gap_ends_ok.
    + cbn [join]. split; [exact Hne|]. unfold clean.
      now rewrite Hs, He, Hg.
Qed.

Lemma clean_nil : clean [] = true.
Proof. reflexivity. Qed.

Lemma clean_strip_id (s : str) : clean s = true -> strip s = s.
Proof.
  unfold clean. intros H. apply andb_true_iff in H as [H _].
  apply andb_true_iff in H as [H1 H2]. now apply strip_id.
Qed.

Lemma split_label_value_clean (line : str) :
  clean (fst (split_label_value line)) = true
  /\ clean (snd (split_label_value line)) = true.
Proof.
  destruct (has_gap (strip line)) eqn:Hg.
  - rewrite (split_label_value_gap _ Hg). cbn [fst snd].
    destruct (gap_decomposition _ Hg) as (gap & Ha & Hsp & Hl & Hb & Hsa).
    split.
    + unfold clean.
      rewrite (before_gap_starts_ok _ (strip_starts_ok line)),
        (before_gap_ends_ok _ Hg), Hb. reflexivity.
    + assert (Hane : after_gap (strip line) <> []).
      { intros E. pose proof (strip_ends_ok line) as He.
        rewrite Ha, E, app_nil_r in He.
        rewrite starts_ok_rev_app in He
          by (destruct gap; [cbn in Hl; lia | discriminate]).
        destruct (rev gap) as [|c r] eqn:Hr.
        - apply (f_equal (@rev char)) in Hr. rewrite rev_involutive in Hr.
          rewrite Hr in Hl. cbn in Hl. lia.
        - cbn [starts_ok] in He. apply negb_true_iff in He.
          assert (Hin : In c gap) by (apply in_rev; rewrite Hr; now left).
          rewrite forallb_forall in Hsp. rewrite (Hsp c Hin) in He.
          discriminate. }
      assert (Hea : starts_ok (rev (after_gap (strip line))) = true).
      { pose proof (strip_ends_ok line) as He. rewrite Ha in He.
        rewrite app_assoc in He. now rewrite starts_ok_rev_app in He. }
      destruct (join_split_gaps_clean (le_n _) Hane Hsa Hea) as [_ Hc].
      now rewrite (clean_strip_id _ Hc).
  - rewrite (split_label_value_no_gap _ Hg). cbn [fst snd].
    split; [|reflexivity]. unfold clean.
    now rewrite strip_starts_ok, strip_ends_ok, Hg.
Qed.

(** X7. The label and the value that the splitter returns are clean
    texts: neither starts or ends with whitespace, and neither contains a
    run of two or more whitespace characters. *)
Theorem split_label_value_is_clean (line : str) :
  let '(label, value) := split_label_value line in
  strip label = label /\ has_gap label = false
  /\ strip value = value /\ has_gap value = false.
Proof.
  destruct (split_label_value_clean line) as [Hl Hv].
  destruct (split_label_value line) as [label value]. cbn [fst snd] in *.
  rewrite (clean_strip_id _ Hl), (clean_strip_id _ Hv).
  unfold clean in Hl, Hv.
  apply andb_true_iff in Hl as [_ Hl]. apply andb_true_iff in Hv as [_ Hv].
  apply negb_true_iff in Hl. apply negb_true_iff in Hv. tauto.
Qed.

(* ================================================================== *)
(** * What every record satisfies *)
(* ================================================================== *)

Section ParseInvariant.

Context {U : Unicode}.
Variable P : transaction -> Prop.
Hypothesis P_new : forall l, P (new_transaction (snd (split_label_value l))).
Hypothesis P_assign :
  forall l c c', P c -> assign l c = Ok c' -> P c'.

Lemma all_records_flush (st : state) :
  all_records P st -> Forall P (flush st).
Proof.
  intros [Ht Hc]. unfold flush. destruct (current st) as [c|]; [|exact Ht].
  apply Forall_app. split; [exact Ht|]. constructor; [now apply Hc | constructor].
Qed.

Lemma step_all_records (st st' : state) (l : str) :
  all_records P st -> step st l = Ok st' -> all_records P st'.
Proof.
  intros Hinv. destruct (is_trigger_line l) eqn:Ht.
  - rewrite (step_trigger st l Ht). intros [= <-]. split; cbn.
    + now apply all_records_flush.
    + intros c [= <-]. apply P_new.
  - destruct (current st) as [cur|] eqn:Hc.
    + rewrite (step_assign _ _ Hc Ht).
      destruct (assign_ok l cur) as [c' Hc']. rewrite Hc'. cbn [bind].
      intros [= <-]. destruct Hinv as [Hts Hcur]. split; cbn.
      * exact Hts.
      * intros c [= <-]. apply (P_assign l (Hcur _ Hc) Hc').
    + rewrite (step_closed _ _ Hc Ht). now intros [= <-].
Qed.

Lemma for_each_all_records (lines : list str) (st st' : state) :
  all_records P st -> for_each step st lines = Ok st' ->
  all_records P st'.
Proof.
  revert st; induction lines as [|l lines IH]; intros st Hinv;
    cbn [for_each].
  - now intros [= <-].
  - destruct (step st l) as [st1|e] eqn:Hs; cbn [bind]; [|discriminate].
    apply IH. eapply step_all_records; eassumption.
Qed.

Lemma parse_all_records (text : str) (records : list transaction) :
  parse_statement_text text = Ok records -> Forall P records.
Proof.
  unfold parse_statement_text, parse_lines.
  destruct (for_each step initial (splitlines text)) as [st|e] eqn:Hf;
    cbn [bind]; [|discriminate].
  intros [= <-]. apply all_records_flush.
  eapply for_each_all_records; [|exact Hf].
  split; [constructor | discriminate].
Qed.

End ParseInvariant.

Lemma assign_clean_fields {U : Unicode} (l : str) (c c' : transaction) :
  clean_fields c -> assign l c = Ok c' -> clean_fields c'.
Proof.
  unfold assign, clean_fields. intros (Hn & Hr & Ho & Hi).
  destruct (amount_of_value_ok (snd (split_label_value l))) as [a ->].
  pose proof (proj2 (split_label_value_clean l)) as Hv.
  destruct (field_of (strip l)) as [[]|]; cbn [bind]; intros [= <-]; cbn;
    tauto.
Qed.

Lemma no_dot_in_date (value : str) :
  existsb (eqc dot) (date_of_value value) = false.
Proof.
  unfold date_of_value.
  change (replace (u ".") (u "-") ?x) with (replace [dot] [hyphen] x).
  rewrite replace_char.
  induction (rstrip_chars (u ".") (strip value)) as [|c l IH];
    [reflexivity|].
  cbn [map existsb]. rewrite IH, orb_false_r.
  destruct (eqc dot c) eqn:E; [reflexivity | exact E].
Qed.

(** X8. In every record that the parser returns, the name, the
    reference, the note and the partner id have no whitespace at their
    ends and no run of two or more whitespace characters. *)
Theorem parsed_text_fields_are_clean
  (U : Unicode) (text : str) (records : list transaction) :
  parse_statement_text text = Ok records ->
  Forall (fun r =>
            (strip (name r) = name r /\ has_gap (name r) = false)
            /\ (strip (reference r) = reference r
                /\ has_gap (reference r) = false)
            /\ (strip (note r) = note r /\ has_gap (note r) = false)
            /\ (strip (id r) = id r /\ has_gap (id r) = false))
         records.
Proof.
  intros Hp.
  assert (H : Forall clean_fields records).
  { refine (@parse_all_records _ clean_fields _ _ text records Hp).
    - intros l. unfold clean_fields. cbn.
      pose proof (proj2 (split_label_value_clean l)). tauto.
    - apply @assign_clean_fields. }
  eapply Forall_impl; [|exact H].
  assert (Hc : forall s, clean s = true -> strip s = s /\ has_gap s = false).
  { intros s Hs. split; [now apply clean_strip_id|].
    unfold clean in Hs. apply andb_true_iff in Hs as [_ Hs].
    now apply negb_true_iff in Hs. }
  intros r (Hn & Hr & Ho & Hi). auto.
Qed.

Lemma parsed_text_fields_are_clean_witness :
  Forall (fun r =>
            (strip (name r) = name r /\ has_gap (name r) = false)
            /\ (strip (reference r) = reference r
                /\ has_gap (reference r) = false)
            /\ (strip (note r) = note r /\ has_gap (note r) = false)
            /\ (strip (id r) = id r /\ has_gap (id r) = false))
         [ {| name := u "Kovács János"; date := []; amount := [];
              reference := u "a b"; note := []; id := [] |} ].
Proof.
  apply (@parsed_text_fields_are_clean Latin.tables
           (u "  Megbízó neve    Kovács   János  " ++ [LF]
            ++ u "Közlemény   a    b ")).
  vm_compute. reflexivity.
Defined.

(** X9. The date of a record that the parser returns never contains a
    point. *)
Theorem parsed_date_has_no_dot
  (U : Unicode) (text : str) (records : list transaction) :
  parse_statement_text text = Ok records ->
  Forall (fun r => ~ In dot (date r)) records.
Proof.
  intros Hp.
  assert (H : Forall (fun r => existsb (eqc dot) (date r) = false) records).
  { refine (@parse_all_records
                _ (fun r => existsb (eqc dot) (date r) = false) _ _
                text records Hp); [reflexivity|].
    intros l c c' Hc. unfold assign.
    destruct (amount_of_value_ok (snd (split_label_value l))) as [a ->].
    destruct (field_of (strip l)) as [[]|]; cbn [bind]; intros [= <-]; cbn;
      try exact Hc.
    apply no_dot_in_date. }
  eapply Forall_impl; [|exact H].
  intros r Hr Hin.
  assert (E : existsb (eqc dot) (date r) = true).
  { apply existsb_exists. exists dot. split; [exact Hin | apply eqc_refl]. }
  congruence.
Qed.

Lemma parsed_date_has_no_dot_witness :
  Forall (fun r => ~ In dot (date r))
         [ {| name := u "ACME Ltd"; date := u "2024-03-01"; amount := [];
              reference := []; note := []; id := [] |} ].
Proof.
  apply (@parsed_date_has_no_dot Latin.tables
           (u "Címzett neve   ACME Ltd" ++ [LF]
            ++ u "Értéknap   2024.03.01...")).
  vm_compute. reflexivity.
Defined.

(* ================================================================== *)
(** * The text of an amount *)
(* ================================================================== *)

Lemma uint_chars_digits (d : Decimal.uint) :
  forallb isdigit (uint_chars d) = true.
Proof. induction d; cbn [uint_chars forallb]; try rewrite IHd; reflexivity. Qed.

Lemma decimal_digits (k : Z) : forallb isdigit (decimal k) = true.
Proof. apply uint_chars_digits. Qed.

Lemma decimal_nonempty (k : Z) : decimal k <> [].
Proof.
  unfold decimal. destruct (Z.to_N k) as [|p]; cbn [N.to_uint].
  - discriminate.
  - pose proof (Unsigned.to_uint_nonnil p) as Hn.
    destruct (Pos.to_uint p); [contradiction | discriminate ..].
Qed.

Lemma decimal_one_digit (k : Z) :
  (0 <= k < 10)%Z -> exists c, decimal k = [c] /\ isdigit c = true.
Proof.
  intros Hk.
  assert (H : (k = 0 \/ k = 1 \/ k = 2 \/ k = 3 \/ k = 4 \/ k = 5 \/ k = 6
               \/ k = 7 \/ k = 8 \/ k = 9)%Z) by lia.
  repeat (destruct H as [-> | H]; [eexists; split; reflexivity|]).
  subst k. eexists; split; reflexivity.
Qed.

Lemma format_2f_finite (neg : bool) (m e : Z) :
  exists (ip : str) (d1 d2 : char),
    format_2f (Finite neg m e) = sign_chars neg ++ ip ++ [46%N; d1; d2]
    /\ ip <> [] /\ forallb isdigit ip = true
    /\ isdigit d1 = true /\ isdigit d2 = true.
Proof.
  cbn [format_2f]. set (n := hundredths m e).
  destruct (decimal_one_digit (k := (n mod 100 / 10)%Z)) as (d1 & E1 & H1).
  { pose proof (Z.mod_pos_bound n 100 eq_refl).
    split; [apply Z.div_pos; lia | apply Z.div_lt_upper_bound; lia]. }
  destruct (decimal_one_digit (k := (n mod 10)%Z)) as (d2 & E2 & H2).
  { apply Z.mod_pos_bound. reflexivity. }
  exists (decimal (n / 100)), d1, d2. rewrite E1, E2.
  repeat split; try assumption.
  - apply decimal_nonempty.
  - apply decimal_digits.
Qed.

(** X10. A finite number is written with an optional minus sign, one or
    more digits, a point and exactly two digits. *)
Theorem format_2f_shape (neg : bool) (m e : Z) :
  exists (ip : str) (d1 d2 : char),
    format_2f (Finite neg m e) = sign_chars neg ++ ip ++ [46%N; d1; d2]
    /\ ip <> [] /\ forallb isdigit ip = true
    /\ isdigit d1 = true /\ isdigit d2 = true.
Proof. apply format_2f_finite. Qed.

Section ReadBack.

Context {U : Unicode}.

Lemma transform_ascii (s : str) :
  forallb (fun c => (c <? 128)%N) s = true -> transform s = Some s.
Proof.
  induction s as [|c s IH]; cbn [forallb transform]; [reflexivity|].
  intros H. apply andb_true_iff in H as [Hc Hs].
  unfold to_ascii. now rewrite Hc, (IH Hs).
Qed.

Lemma drop_underscores_none (prev : char) (s : str) :
  eqc prev 95%N = false ->
  existsb (fun c => eqc c 95%N) s = false ->
  drop_underscores prev s = Some s.
Proof.
  revert prev; induction s as [|c s IH]; intros prev Hp;
    cbn [existsb drop_underscores].
  - now rewrite Hp.
  - intros H. apply orb_false_iff in H as [Hc Hs].
    rewrite Hc, Hp. cbn [andb]. now rewrite (IH c Hc Hs).
Qed.

Lemma strip_c_id (s : str) :
  match s with c :: _ => isspace_c c = false | [] => True end ->
  match rev s with c :: _ => isspace_c c = false | [] => True end ->
  strip_c s = s.
Proof.
  intros Hs He. unfold strip_c, lstrip_by, rstrip_by.
  assert (E : forall t, match t with c :: _ => isspace_c c = false
                                | [] => True end ->
                        dropwhile isspace_c t = t).
  { intros [|c t] H; cbn [dropwhile]; [reflexivity | now rewrite H]. }
  rewrite (E s Hs), (E (rev s) He). apply rev_involutive.
Qed.

Lemma isdigit_facts (c : char) :
  isdigit c = true ->
  (c <? 128)%N = true /\ eqc c 95%N = false /\ eqc c 45%N = false
  /\ eqc c 43%N = false /\ eqc c 46%N = false /\ isspace_c c = false.
Proof.
  unfold isdigit, eqc, isspace_c. intros H.
  apply andb_true_iff in H as [H1 H2].
  apply N.leb_le in H1. apply N.leb_le in H2.
  split; [apply N.ltb_lt; lia|].
  split; [apply N.eqb_neq; lia|].
  split; [apply N.eqb_neq; lia|].
  split; [apply N.eqb_neq; lia|].
  split; [apply N.eqb_neq; lia|].
  assert (E1 : (c <=? 13)%N = false) by (apply N.leb_gt; lia).
  assert (E2 : (c =? 32)%N = false) by (apply N.eqb_neq; lia).
  now rewrite E1, E2, andb_false_r.
Qed.

Lemma span_digits_app (ip r : str) :
  forallb isdigit ip = true ->
  match r with c :: _ => isdigit c = false | [] => True end ->
  span_digits (ip ++ r) = (map (fun c => (Z.of_N c - 48)%Z) ip, r).
Proof.
  intros Hi Hr. induction ip as [|c ip IH]; cbn [app map].
  - destruct r as [|d r]; [reflexivity|]. cbn [span_digits]. now rewrite Hr.
  - cbn [forallb] in Hi. apply andb_true_iff in Hi as [Hc Hi].
    cbn [span_digits]. now rewrite Hc, (IH Hi).
Qed.

(** The text of a finite number is read back as the nearest number to
    the hundredths that it shows. *)
Lemma float_of_format (neg : bool) (ip : str) (d1 d2 : char) :
  ip <> [] -> forallb isdigit ip = true ->
  isdigit d1 = true -> isdigit d2 = true ->
  float_of_str (sign_chars neg ++ ip ++ [46%N; d1; d2])
  = Ok (of_ratio neg
          (digits_value
             (map (fun c => (Z.of_N c - 48)%Z) ip
                ++ [(Z.of_N d1 - 48)%Z; (Z.of_N d2 - 48)%Z]))
          100).
Proof.
  intros Hne Hip H1 H2. unfold float_of_str.
  destruct (isdigit_facts _ H1) as (A1 & B1 & C1 & D1 & E1 & F1).
  destruct (isdigit_facts _ H2) as (A2 & B2 & C2 & D2 & E2 & F2).
  assert (Hall : forall (P : char -> bool),
             P 45%N = true -> P 46%N = true ->
             (forall c, isdigit c = true -> P c = true) ->
             forallb P (sign_chars neg ++ ip ++ [46%N; d1; d2]) = true).
  { intros P P45 P46 Pd. rewrite !forallb_app. cbn [forallb].
    rewrite P46, (Pd _ H1), (Pd _ H2).
    replace (forallb P ip) with true
      by (symmetry; apply forallb_forall; intros c Hc; apply Pd;
          now apply (proj1 (forallb_forall _ _) Hip)).
    destruct neg; cbn; now rewrite ?P45. }
  rewrite transform_ascii
    by (apply Hall; [reflexivity ..|]; intros c Hc;
        apply (isdigit_facts _ Hc)).
  rewrite drop_underscores_none; [|reflexivity|].
  2:{ apply not_true_is_false. intros E.
      apply existsb_exists in E as (c & Hin & Hc).
      assert (Hn : forallb (fun c => negb (eqc c 95%N))
                     (sign_chars neg ++ ip ++ [46%N; d1; d2]) = true).
      { apply Hall; [reflexivity ..|]. intros d Hd.
        destruct (isdigit_facts _ Hd) as (_ & Hd' & _). now rewrite Hd'. }
      rewrite forallb_forall in Hn. specialize (Hn c Hin). cbn beta in Hn.
      rewrite Hc in Hn. discriminate. }
  destruct ip as [|c0 ip0]; [contradiction|].
  cbn [forallb] in Hip. apply andb_true_iff in Hip as [Hc0 Hip0].
  destruct (isdigit_facts _ Hc0) as (A0 & B0 & C0 & D0 & E0 & F0).
  rewrite strip_c_id.
  2:{ destruct neg; cbn; [reflexivity | exact F0]. }
  2:{ change (sign_chars neg ++ (c0 :: ip0) ++ [46%N; d1; d2])
        with (sign_chars neg ++ (c0 :: ip0) ++ [46%N; d1] ++ [d2]).
      rewrite !app_assoc, rev_app_distr. cbn [rev app]. exact F2. }
  assert (Hts : take_sign (sign_chars neg ++ (c0 :: ip0) ++ [46%N; d1; d2])
                = (neg, (c0 :: ip0) ++ [46%N; d1; d2])).
  { destruct neg; cbn [sign_chars app take_sign]; [reflexivity|].
    now rewrite C0, D0. }
  unfold parse_float. rewrite Hts. unfold parse_number.
  rewrite span_digits_app by (cbn [forallb]; now rewrite ?Hc0, ?Hip0).
  cbn [eqc N.eqb Pos.eqb].
  change [d1; d2] with ([d1; d2] ++ []).
  rewrite span_digits_app by (cbn [forallb]; now rewrite ?H1, ?H2).
  cbn [map app parse_exponent List.length].
  reflexivity.
Qed.

End ReadBack.

(** ** The numbers that [float] returns *)

Section FloatValues.

Context {U : Unicode}.

Local Open Scope Z_scope.

Lemma round_half_even_nonneg (p q : Z) :
  0 <= p -> 0 < q -> 0 <= round_half_even p q.
Proof.
  intros Hp Hq. unfold round_half_even.
  pose proof (Z.div_pos p q Hp Hq).
  destruct (2 * (p mod q) ?= q); [destruct (Z.even (p / q))| |]; lia.
Qed.

Lemma of_ratio_nonneg (neg : bool) (p q : Z) :
  0 <= p -> 0 < q ->
  match of_ratio neg p q with
  | Finite _ m _ => 0 <= m
  | _ => True
  end.
Proof.
  intros Hp Hq. unfold of_ratio.
  destruct (p =? 0); [lia|].
  set (t := Z.max (floor_log2 p q - 52) (-1074)).
  destruct (0 <=? t) eqn:Ht.
  - apply Z.leb_le in Ht.
    destruct ((971 <? t) || (t =? 971) && (_ =? 2 ^ 53)); [exact I|].
    apply round_half_even_nonneg; [exact Hp|].
    apply Z.mul_pos_pos; [exact Hq | now apply Z.pow_pos_nonneg].
  - apply Z.leb_gt in Ht.
    destruct ((971 <? t) || (t =? 971) && (_ =? 2 ^ 53)); [exact I|].
    apply round_half_even_nonneg; [|exact Hq].
    apply Z.mul_nonneg_nonneg; [exact Hp|]. apply Z.pow_nonneg. lia.
Qed.

Lemma span_digits_nonneg (s : str) :
  Forall (fun d => 0 <= d) (fst (span_digits s)).
Proof.
  induction s as [|c s IH]; cbn [span_digits]; [constructor|].
  destruct (isdigit c) eqn:Hc; [|constructor].
  destruct (span_digits s) as [ds r]. cbn [fst] in *. constructor; [|exact IH].
  unfold isdigit in Hc. apply andb_true_iff in Hc as [Hc _].
  apply N.leb_le in Hc. lia.
Qed.

Lemma digits_value_nonneg (ds : list Z) :
  Forall (fun d => 0 <= d) ds -> 0 <= digits_value ds.
Proof.
  unfold digits_value.
  assert (H : forall acc, 0 <= acc -> Forall (fun d => 0 <= d) ds ->
                          0 <= fold_left (fun a d => 10 * a + d) ds acc).
  { induction ds as [|d ds IH]; intros a Ha Hd; cbn [fold_left]; [exact Ha|].
    inversion Hd; subst. apply IH; [lia | assumption]. }
  intros Hd. apply H; [lia | exact Hd].
Qed.

Lemma parse_number_nonneg (r : str) (d k : Z) :
  parse_number r = Some (d, k) -> 0 <= d.
Proof.
  unfold parse_number.
  pose proof (span_digits_nonneg r) as Hi.
  destruct (span_digits r) as [ip r1]. cbn [fst] in Hi.
  assert (Hf : Forall (fun d => 0 <= d)
                 (fst match r1 with
                      | c :: r0 => if eqc c 46%N then span_digits r0
                                   else ([], r1)
                      | [] => ([], [])
                      end)).
  { destruct r1 as [|c r0]; [constructor|].
    destruct (eqc c 46%N); [apply span_digits_nonneg | constructor]. }
  destruct (match r1 with
            | c :: r0 => if eqc c 46%N then span_digits r0 else ([], r1)
            | [] => ([], [])
            end) as [fp r2].
  cbn [fst] in Hf.
  destruct (ip ++ fp) as [|x ds] eqn:E; [discriminate|].
  destruct (parse_exponent r2); [|discriminate].
  intros [= <- _]. apply digits_value_nonneg. rewrite <- E.
  apply Forall_app. now split.
Qed.

(** The magnitude of a finite number that [float] returns is not
    negative. *)
Lemma float_of_str_nonneg (s : str) (neg : bool) (m e : Z) :
  float_of_str s = Ok (Finite neg m e) -> 0 <= m.
Proof.
  unfold float_of_str.
  destruct (transform s) as [a|]; [|discriminate].
  destruct (drop_underscores 0%N a) as [b|]; [|discriminate].
  destruct (parse_float (strip_c b)) as [x|] eqn:Hp; [|discriminate].
  intros [= ->]. unfold parse_float in Hp.
  destruct (take_sign (strip_c b)) as [sg r].
  destruct (parse_number r) as [[d k]|] eqn:Hn.
  - apply parse_number_nonneg in Hn.
    destruct (0 <=? k) eqn:Hk; injection Hp as Hp.
    + apply Z.leb_le in Hk.
      pose proof (@of_ratio_nonneg sg (d * 10 ^ k) 1) as H.
      rewrite Hp in H. apply H; [|lia].
      apply Z.mul_nonneg_nonneg; [exact Hn | now apply Z.pow_nonneg].
    + apply Z.leb_gt in Hk.
      pose proof (@of_ratio_nonneg sg d (10 ^ (- k))) as H.
      rewrite Hp in H. apply H; [exact Hn|].
      apply Z.pow_pos_nonneg; lia.
  - destruct (eqs _ _ || eqs _ _); [discriminate|].
    destruct (eqs _ _); discriminate.
Qed.

Lemma of_ratio_sign (neg : bool) (p q : Z) :
  (gt0 (of_ratio neg p q) = true -> neg = false)
  /\ (lt0 (of_ratio neg p q) = true -> neg = true).
Proof.
  unfold of_ratio.
  destruct (p =? 0); [cbn; rewrite !andb_false_r; split; discriminate|].
  destruct (_ || _); cbn [gt0 lt0]; destruct neg; cbn;
    split; (reflexivity || discriminate).
Qed.

Lemma hundredths_zero (e : Z) : hundredths 0 e = 0.
Proof.
  unfold hundredths. destruct (0 <=? e) eqn:He; [reflexivity|].
  apply Z.leb_gt in He. unfold round_half_even.
  cbn [Z.mul]. rewrite Zdiv_0_l, Zmod_0_l. cbn [Z.mul].
  assert (Hq : 0 < 2 ^ (- e)) by (apply Z.pow_pos_nonneg; lia).
  destruct (0 ?= 2 ^ (- e)) eqn:E; [|reflexivity|].
  - apply Z.compare_eq in E. lia.
  - apply Z.compare_gt_iff in E. lia.
Qed.

Lemma read_back (x : float) :
  match x with Finite _ m _ => 0 <= m | _ => True end ->
  exists y,
    float_of_str (format_2f x) = Ok y
    /\ (gt0 y = true -> gt0 x = true)
    /\ (lt0 y = true -> lt0 x = true).
Proof.
  destruct x as [neg m e|neg|]; intros Hm.
  - destruct (Z.eq_dec m 0) as [->|Hne].
    + exists (Finite neg 0 0). cbn [format_2f]. rewrite hundredths_zero.
      split; [now destruct neg|].
      cbn [gt0 lt0]. rewrite !andb_false_r. split; discriminate.
    + destruct (format_2f_finite neg m e) as (ip & d1 & d2 & -> & H).
      destruct H as (Hn & Hi & H1 & H2).
      rewrite float_of_format by assumption.
      eexists; split; [reflexivity|].
      assert (Hpos : (0 <? m) = true) by (apply Z.ltb_lt; lia).
      cbn [gt0 lt0]. rewrite Hpos, !andb_true_r.
      split; intros Hy; apply of_ratio_sign in Hy; now rewrite Hy.
  - exists (Inf neg). split; [now destruct neg | split; trivial].
  - exists NaN. split; [reflexivity | split; trivial].
Qed.

End FloatValues.

(** X11. An amount that the parser has normalized is always read again
    by [float] in the classifier, and never with the opposite sign: if the
    number read from the stored text is positive (negative), so was the
    number that was written (an amount that rounds to 0.00 is read as
    zero). *)
Theorem stored_amount_is_read_back
  (U : Unicode) (value amount : str) (x : float) :
  float_of_str (amt_str_of_value value) = Ok x ->
  amount_of_value value = Ok amount ->
  amount = format_2f x
  /\ exists y,
       float_of_str amount = Ok y
       /\ (gt0 y = true -> gt0 x = true)
       /\ (lt0 y = true -> lt0 x = true).
Proof.
  intros Hx. unfold amount_of_value. rewrite Hx. cbn.
  intros [= <-]. split; [reflexivity|]. apply read_back.
  destruct x as [neg m e| |]; [|exact I ..].
  exact (float_of_str_nonneg _ Hx).
Qed.

Lemma stored_amount_is_read_back_witness :
  u "-0.00" = format_2f (Finite true 4611686018427388 (-62))
  /\ exists y,
       @float_of_str Latin.tables (u "-0.00") = Ok y
       /\ (gt0 y = true -> gt0 (Finite true 4611686018427388 (-62)) = true)
       /\ (lt0 y = true -> lt0 (Finite true 4611686018427388 (-62)) = true).
Proof.
  apply (@stored_amount_is_read_back Latin.tables (u "-0,001 HUF"));
    vm_compute; reflexivity.
Defined.

(* ================================================================== *)
(** * Further properties of the classifier *)
(* ================================================================== *)

Section ClassifierRules.

Context {U : Unicode}.

Lemma after_lit_app (l : str) (prev prev' : option char) (s s' : str) :
  after_lit l prev s = Some (prev', s') -> s = l ++ s'.
Proof.
  revert prev s; induction l as [|x l IH]; intros prev s; cbn [after_lit].
  - now intros [= _ ->].
  - destruct s as [|y s]; [discriminate|].
    destruct (eqc x y) eqn:E; [|discriminate].
    apply eqc_eq in E; subst y. intros H. apply IH in H. now rewrite H.
Qed.

Lemma star_suffix (p : char -> bool) k (prev : option char) (s : str) :
  star p k prev s = true ->
  exists prev' pre s', s = pre ++ s' /\ k prev' s' = true.
Proof.
  revert prev; induction s as [|c s IH]; intros prev; cbn [star]; intros H.
  - rewrite orb_false_r in H. now exists prev, [], [].
  - apply orb_true_iff in H as [H|H].
    + now exists prev, [], (c :: s).
    + apply andb_true_iff in H as [_ H].
      destruct (IH _ H) as (prev' & pre & s' & -> & Hk).
      now exists prev', (c :: pre), s'.
Qed.

Lemma search_from_within (r : regex) (l : str) :
  (forall prev s, matches r accept prev s = true -> contains l s = true) ->
  forall prev s, search_from r prev s = true -> contains l s = true.
Proof.
  intros Hm prev s. revert prev.
  induction s as [|c s IH]; intros prev; cbn [search_from]; intros H.
  - rewrite orb_false_r in H. now apply Hm in H.
  - apply orb_true_iff in H as [H|H]; [now apply Hm in H|].
    apply IH in H. cbn [contains]. rewrite H. apply orb_true_r.
Qed.

(** A literal, a repeated class and a second literal are found only in
    a text that contains the second literal. *)
Lemma search_lit_star_lit (l1 l2 : str) (p : char -> bool) (s : str) :
  search (Seq (Lit l1) (Seq (StarCls p) (Lit l2))) s = true ->
  contains l2 s = true.
Proof.
  unfold search. apply search_from_within. clear s. intros prev s.
  cbn [matches].
  destruct (after_lit l1 prev s) as [[prev1 s1]|] eqn:E1; [|discriminate].
  apply after_lit_app in E1. intros H.
  apply star_suffix in H as (prev2 & pre & s2 & -> & H).
  destruct (after_lit l2 prev2 s2) as [[prev3 s3]|] eqn:E2; [|discriminate].
  apply after_lit_app in E2. subst. apply contains_iff.
  exists (l1 ++ pre), s3. now rewrite <- app_assoc.
Qed.

Lemma search_re_gain (s : str) :
  search re_gain s
  = contains (u "capital gain") s || contains (u "nyereség") s.
Proof.
  unfold re_gain, search. rewrite search_from_Alt.
  fold (search (Seq (Lit (u "tőke"))
                  (Seq (StarCls space_underscore_hyphen)
                     (Lit (u "nyereség")))) s).
  fold (search (alts (u "capital gain") [u "nyereség"]) s).
  rewrite search_alts. cbn [existsb]. rewrite orb_false_r.
  destruct (search (Seq _ _) s) eqn:E; [|reflexivity].
  apply search_lit_star_lit in E. rewrite E. now rewrite orb_true_r.
Qed.

End ClassifierRules.

(** X12. The capital-gain rule depends on two keywords only: when no
    refund, transfer or dividend pattern is found, a transaction is an
    [Investment - Capital Gain] exactly when its lower-cased description
    contains "capital gain" or "nyereség" (the alternative that starts with
    "tőke" adds nothing). *)
Theorem capital_gain_rule
  (U : Unicode) (description amount_str : str) :
  search re_refund (lower description) = false ->
  search re_transfer (lower description) = false ->
  search re_dividend (lower description) = false ->
  (_classify_transaction description amount_str = Ok Investment_Capital_Gain
   <-> contains (u "capital gain") (lower description)
       || contains (u "nyereség") (lower description) = true).
Proof.
  intros Hr Ht Hd. unfold _classify_transaction. rewrite Hr, Ht, Hd.
  rewrite search_re_gain.
  destruct (contains (u "capital gain") (lower description)
            || contains (u "nyereség") (lower description)).
  - split; reflexivity.
  - split; [|discriminate].
    repeat match goal with
    | |- context [if ?b then _ else _] => destruct b
    end; discriminate.
Qed.

Lemma capital_gain_rule_witness :
  @_classify_transaction Latin.tables (u "Árfolyam NYERESÉG 2024") (u "-5")
  = Ok Investment_Capital_Gain
  <-> contains (u "capital gain")
        (@lower Latin.tables (u "Árfolyam NYERESÉG 2024"))
      || contains (u "nyereség")
           (@lower Latin.tables (u "Árfolyam NYERESÉG 2024")) = true.
Proof.
  apply (@capital_gain_rule Latin.tables); vm_compute; reflexivity.
Defined.

(** X13. A transaction is a [Refund] exactly when the refund pattern is
    found in its lower-cased description: no other rule gives that
    type. *)
Theorem refund_exactly_by_keyword
  (U : Unicode) (description amount_str : str) :
  _classify_transaction description amount_str = Ok Refund
  <-> existsb (fun k => contains k (lower description))
        [u "refund"; u "visszatérítés"; u "visszautalás"] = true.
Proof.
  rewrite <- (search_alts (u "refund") [u "visszatérítés"; u "visszautalás"]).
  fold re_refund. unfold _classify_transaction.
  destruct (search re_refund (lower description)).
  - split; reflexivity.
  - split; [|discriminate].
    repeat match goal with
    | |- context [if ?b then _ else _] => destruct b
    end; discriminate.
Qed.

(** X14. What the type says about the amount: [Income] is returned only
    for a salary keyword or a positive amount, [Expense] for a positive
    amount only if a keyword of the expense rule is found, and [Transfer]
    only for a transfer keyword or an amount that is neither positive nor
    negative (zero, not a number, or a text that [float] rejects). *)
Theorem type_and_sign (U : Unicode) (description amount_str : str) :
  let desc := lower description in
  let amount := amount_or_zero amount_str in
  (_classify_transaction description amount_str = Ok Income ->
   search re_salary desc = true \/ gt0 amount = true)
  /\ (_classify_transaction description amount_str = Ok Expense ->
      gt0 amount = true -> search re_expense desc = true)
  /\ (_classify_transaction description amount_str = Ok Transfer ->
      search re_transfer desc = true
      \/ (gt0 amount = false /\ lt0 amount = false)).
Proof.
  cbv zeta. unfold _classify_transaction.
  destruct (search re_refund (lower description));
    [repeat split; discriminate|].
  destruct (search re_transfer (lower description));
    [repeat split; (discriminate || tauto)|].
  destruct (search re_dividend (lower description));
    [repeat split; discriminate|].
  destruct (search re_gain (lower description));
    [repeat split; discriminate|].
  destruct (search re_loss (lower description));
    [repeat split; discriminate|].
  destruct (search re_buy (lower description));
    [repeat split; discriminate|].
  destruct (search re_sell (lower description));
    [repeat split; discriminate|].
  destruct (search re_salary (lower description));
    [repeat split; (discriminate || tauto)|].
  destruct (gt0 (amount_or_zero amount_str)) eqn:Hg,
           (lt0 (amount_or_zero amount_str)) eqn:Hl,
           (search re_interest (lower description)),
           (search re_expense (lower description));
    repeat split; intros; (discriminate || tauto).
Qed.

(* ================================================================== *)
(** * The rows of a statement *)
(* ================================================================== *)

Section Rows.

Context {U : Unicode}.

Lemma classify_ok (description amount_str : str) :
  exists label,
    _classify_transaction description amount_str = Ok label
    /\ In label categories.
Proof.
  unfold _classify_transaction.
  repeat match goal with
  | |- context [if ?b then _ else _] => destruct b
  end; (eexists; split; [reflexivity | simpl; tauto]).
Qed.

Lemma clean_or_else (a b : str) :
  clean a = true -> clean b = true -> clean (or_else a b) = true.
Proof. now destruct a. Qed.

(** The row of a record: its date and its amount are copied, its type is
    one of the categories, and for a record with clean text fields the two
    calls of [strip] change nothing. *)
Lemma output_row_ok (r : transaction) :
  exists row,
    output_row r = Ok row
    /\ row_date row = date r
    /\ row_amount row = amount r
    /\ In (row_type row) categories
    /\ (clean_fields r ->
        row_description row = describe r
        /\ _classify_transaction (or_else (reference r) (note r)) (amount r)
           = Ok (row_type row)).
Proof.
  unfold output_row.
  destruct (classify_ok (strip (or_else (reference r) (note r))) (amount r))
    as (label & Hl & Hin).
  rewrite Hl. cbn [bind]. eexists. split; [reflexivity|].
  cbn [row_date row_amount row_type row_description].
  split; [reflexivity|]. split; [reflexivity|]. split; [exact Hin|].
  intros (Hn & Hr & Ho & _). split.
  - unfold describe.
    now rewrite (clean_strip_id _ Hn),
      (clean_strip_id _ (clean_or_else _ _ Hr Ho)).
  - now rewrite (clean_strip_id _ (clean_or_else _ _ Hr Ho)) in Hl.
Qed.

Lemma for_each_write_row (records : list transaction) (acc : list row) :
  exists rows,
    for_each write_row acc records = Ok (acc ++ rows)
    /\ Forall2 (fun r row => output_row r = Ok row) records rows.
Proof.
  revert acc; induction records as [|r records IH]; intros acc;
    cbn [for_each].
  - exists []. now rewrite app_nil_r.
  - unfold write_row at 1.
    destruct (output_row_ok r) as (row & Hrow & _). rewrite Hrow.
    cbn [bind]. destruct (IH (acc ++ [row])) as (rows & -> & Hrows).
    exists (row :: rows). rewrite <- app_assoc. split; [reflexivity|].
    now constructor.
Qed.

Lemma parse_length (text : str) :
  exists records,
    parse_statement_text text = Ok records
    /\ List.length records
       = List.length (filter is_trigger_line (splitlines text)).
Proof.
  unfold parse_statement_text, parse_lines.
  destruct (for_each_step_names (splitlines text) initial) as (st & -> & Hn).
  cbn [bind]. exists (flush st). split; [reflexivity|].
  cbn [flush initial current transactions map app] in Hn.
  now rewrite <- (length_map name), Hn, length_map.
Qed.

End Rows.

(** X15. The conversion never raises and writes one row for each
    trigger line of the text, in the order of the records; the date and the
    amount of a row are those of its record, and its type is one of the
    nine categories. *)
Theorem one_row_per_record (U : Unicode) (text : str) :
  exists records rows,
    parse_statement_text text = Ok records
    /\ convert_pdf_to_csv text = Ok rows
    /\ List.length rows
       = List.length (filter is_trigger_line (splitlines text))
    /\ map row_date rows = map date records
    /\ map row_amount rows = map amount records
    /\ Forall (fun row => In (row_type row) categories) rows.
Proof.
  destruct (parse_length text) as (records & Hp & Hlen).
  destruct (for_each_write_row records []) as (rows & Hw & Hrows).
  exists records, rows. unfold convert_pdf_to_csv. rewrite Hp. cbn [bind].
  split; [reflexivity|]. split; [exact Hw|].
  rewrite <- Hlen. clear Hp Hw Hlen.
  induction Hrows as [|r row records rows Hr Hrs IH].
  - repeat split. constructor.
  - destruct IH as (I1 & I2 & I3 & I4).
    destruct (output_row_ok r) as (row' & Hr' & Hd & Ha & Ht & _).
    rewrite Hr in Hr'. injection Hr' as <-.
    cbn [List.length map]. rewrite I1, I2, I3, Hd, Ha.
    repeat split. now constructor.
Qed.

(** X16. For the records of a statement the calls of [strip] in the
    conversion change nothing: the description of a row is the name, " - "
    and the reference (the note if there is no reference), or the one of
    them that is not empty, and the type is the classification of the
    reference (or note) and the amount as they are in the record. *)
Theorem rows_use_fields_as_parsed (U : Unicode) (text : str) :
  exists records rows,
    parse_statement_text text = Ok records
    /\ convert_pdf_to_csv text = Ok rows
    /\ Forall2
         (fun r row =>
            row_description row = describe r
            /\ _classify_transaction (or_else (reference r) (note r))
                 (amount r)
               = Ok (row_type row))
         records rows.
Proof.
  destruct (parse_length text) as (records & Hp & _).
  destruct (for_each_write_row records []) as (rows & Hw & Hrows).
  exists records, rows. unfold convert_pdf_to_csv. rewrite Hp. cbn [bind].
  split; [reflexivity|]. split; [exact Hw|].
  assert (Hc : Forall clean_fields records).
  { refine (@parse_all_records _ clean_fields _ _ text records Hp).
    - intros l. unfold clean_fields. cbn.
      pose proof (proj2 (split_label_value_clean l)). tauto.
    - apply @assign_clean_fields. }
  clear Hp Hw. induction Hrows as [|r row records rows Hr Hrs IH].
  - constructor.
  - inversion Hc as [|? ? Hcr Hcs]; subst.
    constructor; [|now apply IH].
    destruct (output_row_ok r) as (row' & Hr' & _ & _ & _ & Hd).
    rewrite Hr in Hr'. injection Hr' as <-. now apply Hd.
Qed.

(* ================================================================== *)
(** * Lines and texts *)
(* ================================================================== *)

Section LinesAndTexts.

Context {U : Unicode}.

Lemma split_label_value_strip (line : str) :
  split_label_value (strip line) = split_label_value line.
Proof. unfold split_label_value. now rewrite strip_idempotent. Qed.

Lemma step_strip (st : state) (raw_line : str) :
  step st (strip raw_line) = step st raw_line.
Proof.
  unfold step. now rewrite strip_idempotent, split_label_value_strip.
Qed.

Lemma step_blank (st : state) : step st [] = Ok st.
Proof. reflexivity. Qed.

Lemma cons_head_app (c : char) (x y : list str) :
  x <> [] -> cons_head c (x ++ y) = cons_head c x ++ y.
Proof. now destruct x. Qed.

Lemma cons_head_nonempty (c : char) (x : list str) : cons_head c x <> [].
Proof. now destruct x. Qed.

Lemma splitlines_from_LF_nonempty (a : str) :
  splitlines_from false (a ++ [LF]) <> [].
Proof.
  destruct a as [|c a]; cbn [app splitlines_from andb]; [discriminate|].
  destruct (islinebreak c); [discriminate | apply cons_head_nonempty].
Qed.

(** The lines of two texts joined by a line feed: those of the first
    text with the line feed, then those of the second. *)
Lemma splitlines_from_join (f : bool) (a b : str) :
  splitlines_from f (a ++ LF :: b)
  = splitlines_from f (a ++ [LF]) ++ splitlines_from false b.
Proof.
  revert f; induction a as [|c a IH]; intros f.
  - cbn [app]. destruct f; reflexivity.
  - cbn [app splitlines_from].
    destruct (f && eqc c LF); [apply IH|].
    destruct (islinebreak c).
    + now rewrite IH.
    + rewrite IH. apply cons_head_app, splitlines_from_LF_nonempty.
Qed.

(** A line feed at the end of a text adds at most an empty line. *)
Lemma splitlines_from_LF (f : bool) (a : str) :
  splitlines_from f (a ++ [LF]) = splitlines_from f a
  \/ splitlines_from f (a ++ [LF]) = splitlines_from f a ++ [[]].
Proof.
  revert f; induction a as [|c a IH]; intros f.
  - cbn [app]. destruct f; [left | right]; reflexivity.
  - cbn [app splitlines_from].
    destruct (f && eqc c LF); [apply IH|].
    destruct (islinebreak c).
    + destruct (IH (eqc c CR)) as [-> | ->]; [now left | now right].
    + destruct (IH false) as [-> | E]; [now left|].
      destruct a as [|d a'].
      * left. reflexivity.
      * right. rewrite E. apply cons_head_app.
        cbn [splitlines_from andb].
        destruct (islinebreak d); [discriminate | apply cons_head_nonempty].
Qed.

Lemma for_each_step_blank_end (lines : list str) (st : state) :
  for_each step st (lines ++ [[]]) = for_each step st lines.
Proof.
  rewrite for_each_app. destruct (for_each step st lines) as [st'|e];
    reflexivity.
Qed.

End LinesAndTexts.

(** X17. The parser reads the trimmed lines only: the indentation of a
    line and the whitespace at its end change nothing. *)
Theorem parser_reads_trimmed_lines (U : Unicode) (lines : list str) :
  parse_lines (map strip lines) = parse_lines lines.
Proof.
  unfold parse_lines. f_equal. generalize initial as st.
  induction lines as [|l lines IH]; intros st; cbn [map for_each].
  - reflexivity.
  - rewrite step_strip. destruct (step st l) as [st1|e]; cbn [bind];
      [apply IH | reflexivity].
Qed.

(** X18. Two statement texts joined by a line feed give the records of
    the first followed by the records of the second, if the second text
    starts with a trigger line. *)
Theorem records_of_joined_texts
  (U : Unicode) (text1 text2 : str) (t : str) (rest : list str) :
  splitlines text2 = t :: rest ->
  is_trigger_line t = true ->
  exists r1 r2,
    parse_statement_text text1 = Ok r1
    /\ parse_statement_text text2 = Ok r2
    /\ parse_statement_text (text1 ++ LF :: text2) = Ok (r1 ++ r2).
Proof.
  intros Hs Ht. unfold parse_statement_text, splitlines.
  rewrite splitlines_from_join. fold (splitlines text2). rewrite Hs.
  unfold parse_lines. rewrite for_each_app.
  assert (E : for_each step initial (splitlines_from false (text1 ++ [LF]))
              = for_each step initial (splitlines_from false text1)).
  { destruct (splitlines_from_LF false text1) as [-> | ->];
      [reflexivity | apply for_each_step_blank_end]. }
  rewrite E.
  destruct (for_each_step_ok (splitlines_from false text1) initial)
    as [st1 Hst1].
  rewrite Hst1. cbn [bind for_each]. rewrite !(step_trigger _ t Ht).
  cbn [bind].
  assert (E2 : {| transactions := flush st1;
                  current :=
                    Some (new_transaction (snd (split_label_value t))) |}
               = add_prefix (flush st1)
                   {| transactions := flush initial;
                      current :=
                        Some (new_transaction
                                (snd (split_label_value t))) |}).
  { unfold add_prefix. cbn. now rewrite app_nil_r. }
  rewrite E2, for_each_step_frame.
  destruct (for_each_step_ok rest
              {| transactions := flush initial;
                 current :=
                   Some (new_transaction (snd (split_label_value t))) |})
    as [st2 Hst2].
  rewrite Hst2. cbn [bind]. exists (flush st1), (flush st2).
  now rewrite flush_add_prefix.
Qed.

Lemma records_of_joined_texts_witness :
  exists r1 r2,
    @parse_statement_text Latin.tables
      (u "Címzett neve   ACME Ltd" ++ [CR; LF] ++ u "Közlemény   Invoice 42"
       ++ [CR]) = Ok r1
    /\ @parse_statement_text Latin.tables
         (u "  Megbízó neve   Kovács János" ++ [LF]
          ++ u "Értéknap   2024.03.02.") = Ok r2
    /\ @parse_statement_text Latin.tables
         ((u "Címzett neve   ACME Ltd" ++ [CR; LF]
           ++ u "Közlemény   Invoice 42" ++ [CR])
          ++ LF :: (u "  Megbízó neve   Kovács János" ++ [LF]
                    ++ u "Értéknap   2024.03.02.")) = Ok (r1 ++ r2).
Proof.
  apply (@records_of_joined_texts Latin.tables
           (u "Címzett neve   ACME Ltd" ++ [CR; LF]
            ++ u "Közlemény   Invoice 42" ++ [CR])
           (u "  Megbízó neve   Kovács János" ++ [LF]
            ++ u "Értéknap   2024.03.02.")
           (u "  Megbízó neve   Kovács János")
           [u "Értéknap   2024.03.02."]);
    vm_compute; reflexivity.
Defined.
